(** * sanitize-tools: schema sanitation and content flattening

    A shallow embedding of [src/sanitize-tools.ts].

    Values are the data a JSON text can denote, plus [undefined]: the
    primitives, ordered sequences (arrays) and trees (plain objects).  An
    object is the list of its own enumerable properties in the order
    [Object.entries] lists them; a well-formed object holds each key once.
    Numbers are the integers.  Values are finite and acyclic, their
    prototypes are the built-in ones, and they carry no accessors.  An
    object built by the code is modelled by its own properties as well.

    Functions, symbols, BigInts and objects that refer to themselves are
    not values of the model.  On such a result line 107 hands back
    [undefined] (a function, a symbol) or throws (a BigInt, a cycle), so
    what is proved below of [flattenContent] and of the wrapper is proved
    of results that are JSON data, and the text of a number is the one of
    the source for integers below 2^53 in magnitude ([safe_numbers]). *)

From Stdlib Require Import String Ascii List ZArith Bool Lia DecimalString.
Import ListNotations.
Open Scope string_scope.
Open Scope list_scope.

(** ** Values *)

Unset Elimination Schemes.
Inductive value : Type :=
| VUndefined
| VNull
| VBool (b : bool)
| VNum (n : Z)
| VStr (s : string)
| VArr (items : list value)
| VObj (props : list (string * value)).
Set Elimination Schemes.

(** Own properties of an object, in [Object.entries] order. *)
Definition object : Type := list (string * value).

(** The double quote, the backslash and the line feed. *)
Definition dquote : ascii := "034"%char.
Definition backslash : ascii := "092"%char.
Definition newline : string := String "010"%char EmptyString.

(** [typeof v]. *)
Definition typeof (v : value) : string :=
  match v with
  | VUndefined => "undefined"
  | VNull => "object"
  | VBool _ => "boolean"
  | VNum _ => "number"
  | VStr _ => "string"
  | VArr _ => "object"
  | VObj _ => "object"
  end.

(** [ToBoolean v], the test behind [!v] and [if (v)]. *)
Definition truthy (v : value) : bool :=
  match v with
  | VUndefined | VNull => false
  | VBool b => b
  | VNum n => negb (n =? 0)%Z
  | VStr s => negb (s =? EmptyString)%string
  | VArr _ | VObj _ => true
  end.

(** [Array.isArray v]. *)
Definition Array_isArray (v : value) : bool :=
  match v with VArr _ => true | _ => false end.

(** [v !== null && typeof v === "object" && !Array.isArray(v)]: the test
    for a tree used at lines 30-33 and 40-42. *)
Definition is_plain_object (v : value) : bool :=
  negb (match v with VNull => true | _ => false end)
  && (typeof v =? "object")%string
  && negb (Array_isArray v).

(** First entry stored under [key]. *)
Fixpoint assoc {A : Type} (key : string) (l : list (string * A)) : option A :=
  match l with
  | [] => None
  | (k, x) :: rest => if (k =? key)%string then Some x else assoc key rest
  end.

(** [key in v] and [v[key]] for the literal keys the source reads
    ("type", "text", "content") on a value that passed the
    [typeof v === "object"] test.  An array owns its indices and "length"
    only and the built-in prototypes define none of the three names, so
    the read finds something on a plain object alone. *)
Definition get (v : value) (key : string) : option value :=
  match v with
  | VObj props => assoc key props
  | _ => None
  end.

(** Replace the value stored under [key], keeping its place. *)
Fixpoint replace {A : Type} (key : string) (x : A) (l : list (string * A))
  : list (string * A) :=
  match l with
  | [] => []
  | (k, y) :: rest =>
      if (k =? key)%string then (k, x) :: rest else (k, y) :: replace key x rest
  end.

(** [out[key] = x] on an object that began as the literal [{}].  The name
    "__proto__" is not stored: the assignment reaches the accessor that
    [Object.prototype] defines, which changes the prototype of [out] (or does
    nothing when [x] is a primitive) and adds no own property; the
    prototype itself is not part of the model.  Every other name becomes an
    own property, overwritten in place when present and appended when new
    (the prototypes that can be installed this way hold writable data
    properties only, so they never stand in the way).  The source assigns
    keys in [Object.entries] order, so appending keeps that order. *)
Definition js_assign {A : Type} (out : list (string * A)) (key : string) (x : A)
  : list (string * A) :=
  if (key =? "__proto__")%string then out
  else match assoc key out with
       | Some _ => replace key x out
       | None => out ++ [(key, x)]
       end.

(** Decimal text of an array index. *)
Definition index_key (i : nat) : string :=
  NilZero.string_of_uint (Nat.to_uint i).

Fixpoint indexed (i : nat) (items : list value) : object :=
  match items with
  | [] => []
  | x :: rest => (index_key i, x) :: indexed (S i) rest
  end.

(** [Object.entries(v)] for a value of type object: the properties of a
    tree, the indexed elements of an array. *)
Definition Object_entries (v : value) : object :=
  match v with
  | VObj props => props
  | VArr items => indexed 0 items
  | _ => []
  end.

(** ** Schema sanitizer (lines 9-52) *)

Definition STRIP_KEYS : list string :=
  [ "minLength"; "maxLength"; "minItems"; "maxItems";
    "exclusiveMinimum"; "exclusiveMaximum";
    "pattern"; "format"; "default"; "$schema" ].

(** [STRIP_KEYS.has(key)]. *)
Definition STRIP_KEYS_has (key : string) : bool :=
  existsb (String.eqb key) STRIP_KEYS.

(** One turn of the loop of [sanitizeSchema] (lines 27-49) and the whole
    loop (lines 25-51), with the value stored under a kept key computed by
    [rhs]. *)
Definition sanitize_step (rhs : value -> value) (out : object)
  (entry : string * value) : object :=
  let '(key, v) := entry in
  if STRIP_KEYS_has key then out else js_assign out key (rhs v).

Definition sanitize_entries (rhs : value -> value) (schema : object) : object :=
  fold_left (sanitize_step rhs) schema [].

(** The value the loop stores for [v] (lines 30-48): a tree is
    sanitized, an array is mapped (its trees sanitized, every other item
    kept as it is), anything else is kept. *)
Fixpoint sanitize_value (v : value) : value :=
  match v with
  | VObj schema => VObj (sanitize_entries sanitize_value schema)
  | VArr items =>
      VArr (map (fun item =>
                   match item with
                   | VObj _ => sanitize_value item
                   | _ => item
                   end) items)
  | _ => v
  end.

Definition sanitizeSchema (schema : object) : object :=
  sanitize_entries sanitize_value schema.

(** ** JSON.stringify *)

Definition hex_digit (n : nat) : ascii :=
  nth n [ "0"; "1"; "2"; "3"; "4"; "5"; "6"; "7";
          "8"; "9"; "a"; "b"; "c"; "d"; "e"; "f" ]%char "0"%char.

(** One code unit inside a quoted JSON string: the two-character escapes,
    the six-character escape of the other control characters, and every
    other character as it is. *)
Definition quote_code_unit (c : ascii) : string :=
  let n := nat_of_ascii c in
  let esc (x : ascii) := String backslash (String x EmptyString) in
  if (n =? 8)%nat then esc "b"%char
  else if (n =? 9)%nat then esc "t"%char
  else if (n =? 10)%nat then esc "n"%char
  else if (n =? 12)%nat then esc "f"%char
  else if (n =? 13)%nat then esc "r"%char
  else if (n =? 34)%nat then esc dquote
  else if (n =? 92)%nat then esc backslash
  else if (n <? 32)%nat then
    String backslash
      (String "u"%char
         (String "0"%char
            (String "0"%char
               (String (hex_digit (n / 16))
                  (String (hex_digit (n mod 16)) EmptyString)))))
  else String c EmptyString.

Fixpoint quote_code_units (s : string) : string :=
  match s with
  | EmptyString => EmptyString
  | String c rest => (quote_code_unit c ++ quote_code_units rest)%string
  end.

Definition QuoteJSONString (s : string) : string :=
  String dquote (quote_code_units s ++ String dquote EmptyString)%string.

(** [JSON.stringify(v)]: [None] stands for the result [undefined].  A
    property whose value has no text is left out of its object; an array
    element that has none is written null.  An integer is written in
    decimal digits, as the source writes the integers below 10^21 in
    magnitude; the exponent form of larger numbers is not modelled. *)
Fixpoint JSON_stringify (v : value) : option string :=
  match v with
  | VUndefined => None
  | VNull => Some "null"
  | VBool true => Some "true"
  | VBool false => Some "false"
  | VNum n => Some (NilZero.string_of_int (Z.to_int n))
  | VStr s => Some (QuoteJSONString s)
  | VArr items =>
      Some ("[" ++
            String.concat ","
              (map (fun item =>
                      match JSON_stringify item with
                      | Some text => text
                      | None => "null"
                      end) items)
            ++ "]")%string
  | VObj props =>
      Some ("{" ++
            String.concat ","
              (flat_map (fun '(key, x) =>
                           match JSON_stringify x with
                           | Some text => [(QuoteJSONString key ++ ":" ++ text)%string]
                           | None => []
                           end) props)
            ++ "}")%string
  end.

(** ** Content flattener (lines 61-108) *)

(** [key in v]. *)
Definition has (v : value) (key : string) : bool :=
  match get v key with Some _ => true | None => false end.

(** [v[key]]: [undefined] when there is no such property. *)
Definition read (v : value) (key : string) : value :=
  match get v key with Some x => x | None => VUndefined end.

(** [v !== null]. *)
Definition not_null (v : value) : bool :=
  match v with VNull => false | _ => true end.

(** [v === s] for a string literal [s]. *)
Definition is_string (v : value) (s : string) : bool :=
  match v with VStr t => (t =? s)%string | _ => false end.

(** The test of lines 66-74. *)
Definition is_text_part (part : value) : bool :=
  not_null part
  && (typeof part =? "object")%string
  && has part "type"
  && is_string (read part "type") "text"
  && has part "text"
  && (typeof (read part "text") =? "string")%string.

(** [texts.push(x)] for an [x] that passed the [typeof x === "string"] test. *)
Definition push (texts : list string) (x : value) : list string :=
  match x with VStr text => texts ++ [text] | _ => texts end.

Definition extractTexts (parts : list value) : list string :=
  fold_left
    (fun texts part =>
       if is_text_part part then push texts (read part "text") else texts)
    parts [].

(** [texts.join(sep)]. *)
Definition join (sep : string) (texts : list string) : string :=
  String.concat sep texts.

(** The elements of an array ([[]] for any other value). *)
Definition elements (v : value) : list value :=
  match v with VArr items => items | _ => [] end.

(** The result is a string or, where [JSON.stringify] has no text for the
    value, [undefined]. *)
Definition flattenContent (result : value) : value :=
  if (typeof result =? "string")%string then result
  else
    let wrapped :=
      if not_null result
         && (typeof result =? "object")%string
         && has result "content"
         && Array_isArray (read result "content")
      then
        let parts := elements (read result "content") in
        let texts := extractTexts parts in
        if (0 <? length texts)%nat then Some (join newline texts) else None
      else None in
    match wrapped with
    | Some text => VStr text
    | None =>
        let bare :=
          if Array_isArray result then
            let texts := extractTexts (elements result) in
            if (0 <? length texts)%nat then Some (join newline texts) else None
          else None in
        match bare with
        | Some text => VStr text
        | None =>
            match JSON_stringify result with
            | Some text => VStr text
            | None => VUndefined
            end
        end
    end.

(** ** Tools (lines 114-162) *)

(** How a call ends: it returns (an awaited promise is fulfilled), or it
    throws (the promise is rejected). *)
Inductive outcome (E A : Type) : Type :=
| Returned (a : A)
| Thrown (e : E).
Arguments Returned {E A} a.
Arguments Thrown {E A} e.

Definition bind {E A B : Type} (m : outcome E A) (k : A -> outcome E B)
  : outcome E B :=
  match m with
  | Returned a => k a
  | Thrown e => Thrown e
  end.

Notation "x <- m ;; k" := (bind m (fun x => k))
  (at level 61, m at next level, right associativity).

(** What the module takes from its host and from the package it imports:
    the types of schema descriptors, of thrown values, of argument lists,
    of result-rendering hooks and of the remaining fields of a tool;
    [asSchema s] is [asSchema(s).jsonSchema], which may throw, and
    [jsonSchema] builds a descriptor from a plain schema. *)
Class Host : Type := {
  Schema : Type;
  Err : Type;
  Args : Type;
  Hook : Type;
  Other : Type;
  asSchema : Schema -> outcome Err value;
  jsonSchema : value -> Schema
}.

(** A tool: the three fields the module reads or writes, and the rest. *)
Record Tool {H : Host} : Type := mkTool {
  inputSchema : Schema;
  execute : option (Args -> outcome Err value);
  toModelOutput : option Hook;
  other : Other
}.

(** A tool set: the own properties of the object, by name. *)
Definition ToolSet {H : Host} : Type := list (string * Tool).

(** The wrapper of lines 125-130. *)
Definition wrapped {H : Host} (original : Args -> outcome Err value)
  : Args -> outcome Err value :=
  fun executeArgs =>
    result <- original executeArgs ;;
    Returned (flattenContent result).

Definition wrapExecute {H : Host} (tool : Tool) : Tool :=
  match execute tool with
  | None => tool
  | Some original =>
      {| inputSchema := inputSchema tool;
         other := other tool;
         toModelOutput := None;
         execute := Some (wrapped original) |}
  end.

(** [{ ...tool, inputSchema: s }]. *)
Definition with_inputSchema {H : Host} (tool : Tool) (s : Schema) : Tool :=
  {| inputSchema := s;
     execute := execute tool;
     toModelOutput := toModelOutput tool;
     other := other tool |}.

(** [!raw || typeof raw !== "object"] (line 146). *)
Definition skips_sanitation (raw : value) : bool :=
  negb (truthy raw) || negb (typeof raw =? "object")%string.

(** The value one turn of the loop assigns to [out[name]] (lines 144-158). *)
Definition adapt {H : Host} (tool : Tool) : outcome Err Tool :=
  raw <- asSchema (inputSchema tool) ;;
  if skips_sanitation raw then Returned (wrapExecute tool)
  else
    let cleaned := sanitizeSchema (Object_entries raw) in
    Returned (wrapExecute (with_inputSchema tool (jsonSchema (VObj cleaned)))).

(** One turn of the loop (lines 143-159): nothing more is done once a
    turn has thrown. *)
Definition assign_adapted {H : Host} (acc : outcome Err ToolSet)
  (entry : string * Tool) : outcome Err ToolSet :=
  let '(name, tool) := entry in
  out <- acc ;;
  tool' <- adapt tool ;;
  Returned (js_assign out name tool').

Definition sanitizeTools {H : Host} (tools : ToolSet) : outcome Err ToolSet :=
  fold_left assign_adapted tools (Returned []).

(** ** Vocabulary of the specification *)

(** Every key of the object is held once. *)
Fixpoint unique_keys {A : Type} (l : list (string * A)) : bool :=
  match l with
  | [] => true
  | (k, _) :: rest =>
      match assoc k rest with
      | Some _ => false
      | None => unique_keys rest
      end
  end.

(** Well-formed values: every object at every depth holds each key once. *)
Fixpoint wf (v : value) : bool :=
  match v with
  | VObj props => unique_keys props && forallb (fun '(_, x) => wf x) props
  | VArr items => forallb wf items
  | _ => true
  end.

(** [key] occurs in [v] at some depth: as a key of [v], of a tree nested in
    it, or of a tree below an element of a sequence at any depth. *)
Fixpoint occurs (key : string) (v : value) : bool :=
  match v with
  | VObj props =>
      existsb (fun '(k, x) => (k =? key)%string || occurs key x) props
  | VArr items => existsb (occurs key) items
  | _ => false
  end.

(** [key] occurs in [v] on a path the sanitizer walks: through the values
    of trees, and through those elements of a sequence that are trees. *)
Fixpoint reaches (key : string) (v : value) : bool :=
  match v with
  | VObj props =>
      existsb (fun '(k, x) => (k =? key)%string || reaches key x) props
  | VArr items =>
      existsb (fun item =>
                 match item with
                 | VObj _ => reaches key item
                 | _ => false
                 end) items
  | _ => false
  end.

(** The keys the loop of [sanitizeSchema] stores. *)
Definition kept (key : string) : bool :=
  negb (STRIP_KEYS_has key) && negb (key =? "__proto__")%string.

(** The stored entries, as a filter and a map. *)
Definition kept_entries (rhs : value -> value) (schema : object) : object :=
  map (fun '(k, v) => (k, rhs v)) (filter (fun '(k, _) => kept k) schema).

(** A Content Block in the words of the specification: a record with a
    field "type" of value "text" and a field "text" holding a string. *)
Definition content_block_text (v : value) : option string :=
  match v with
  | VObj props =>
      match assoc "type" props, assoc "text" props with
      | Some (VStr ty), Some (VStr text) =>
          if (ty =? "text")%string then Some text else None
      | _, _ => None
      end
  | _ => None
  end.

(** The texts of the Content Blocks of a sequence, in order. *)
Definition block_texts (parts : list value) : list string :=
  flat_map (fun part =>
              match content_block_text part with
              | Some text => [text]
              | None => []
              end) parts.

(** The texts the flattener finds in a result: those of the sequence under
    "content" when the result is a tree holding one, those of the result
    when it is a sequence. *)
Definition collected (result : value) : list string :=
  match result with
  | VObj props =>
      match assoc "content" props with
      | Some (VArr parts) => block_texts parts
      | _ => []
      end
  | VArr parts => block_texts parts
  | _ => []
  end.

(** [JSON.stringify(v)] as a value. *)
Definition encoding (v : value) : value :=
  match JSON_stringify v with
  | Some text => VStr text
  | None => VUndefined
  end.

(** Every tool adapted in turn, under its name. *)
Fixpoint adapt_all {H : Host} (tools : ToolSet) : outcome Err ToolSet :=
  match tools with
  | [] => Returned []
  | (name, tool) :: rest =>
      tool' <- adapt tool ;;
      rest' <- adapt_all rest ;;
      Returned ((name, tool') :: rest')
  end.

(** The names an assignment to the literal [{}] stores. *)
Definition storable {A : Type} (entry : string * A) : bool :=
  negb (fst entry =? "__proto__")%string.

(** ** A host to evaluate the adapter on *)

(** Descriptors are the schemas themselves, thrown values are messages,
    arguments are value lists. *)
Definition plain_host : Host :=
  {| Schema := value;
     Err := string;
     Args := list value;
     Hook := nat;
     Other := string;
     asSchema := fun s => Returned s;
     jsonSchema := fun v => v |}.

(** A host whose resolver throws on a descriptor that is undefined. *)
Definition strict_host : Host :=
  {| Schema := value;
     Err := string;
     Args := list value;
     Hook := nat;
     Other := string;
     asSchema := fun s =>
                   match s with
                   | VUndefined => Thrown "no schema"
                   | _ => Returned s
                   end;
     jsonSchema := fun v => v |}.

Definition text_block (text : string) : value :=
  VObj [("type", VStr "text"); ("text", VStr text)].

(** A tool that answers with one text block and fails on no arguments. *)
Definition echo_execute (args : list value) : outcome string value :=
  match args with
  | [] => Thrown "no input"
  | _ => Returned (VArr [text_block "result"])
  end.

Definition string_schema : value :=
  VObj [("type", VStr "string"); ("minLength", VNum 3)].

Definition echo_tool : Tool (H := plain_host) :=
  @mkTool plain_host string_schema (Some echo_execute) (Some 7) "echo".

(** A tool with a hook and no execution function, whose descriptor
    resolves to nothing. *)
Definition static_tool : Tool (H := plain_host) :=
  @mkTool plain_host VUndefined None (Some 1) "static".

(** A tool with no execution function whose descriptor resolves to an
    empty sequence. *)
Definition listed_tool : Tool (H := plain_host) :=
  @mkTool plain_host (VArr []) None None "listed".

Definition demo_tools : ToolSet (H := plain_host) :=
  [("echo", echo_tool); ("static", static_tool)].

(** What the adapter makes of [echo_tool]. *)
Definition echo_adapted : Tool (H := plain_host) :=
  @mkTool plain_host (VObj [("type", VStr "string")])
    (Some (wrapped (H := plain_host) echo_execute)) None "echo".

Definition demo_adapted : ToolSet (H := plain_host) :=
  [("echo", echo_adapted); ("static", static_tool)].

(** What the adapter makes of [listed_tool]. *)
Definition listed_adapted : Tool (H := plain_host) :=
  @mkTool plain_host (VObj []) None None "listed".

(** A tool with an execution function whose descriptor resolves to null,
    and what the adapter makes of it. *)
Definition bare_tool : Tool (H := plain_host) :=
  @mkTool plain_host VNull (Some echo_execute) (Some 2) "bare".

Definition bare_adapted : Tool (H := plain_host) :=
  @mkTool plain_host VNull
    (Some (wrapped (H := plain_host) echo_execute)) None "bare".

(** The schema of an object with one parameter, named __proto__. *)
Definition proto_schema : object :=
  [("type", VStr "object");
   ("properties", VObj [("__proto__", VObj [("type", VStr "string")])])].

(** The same two tools on the strict host. *)
Definition strict_echo : Tool (H := strict_host) :=
  @mkTool strict_host string_schema (Some echo_execute) (Some 7) "echo".

Definition strict_static : Tool (H := strict_host) :=
  @mkTool strict_host VUndefined None (Some 1) "static".

(** A schema with a tree inside a sequence inside a sequence. *)
Definition nested_enum : object :=
  [("enum", VArr [VArr [VObj [("minLength", VNum 1)]]])].

(** No sequence is a direct element of a sequence, at any depth. *)
Fixpoint flat (v : value) : bool :=
  match v with
  | VObj props => forallb (fun '(_, x) => flat x) props
  | VArr items =>
      forallb (fun item => negb (Array_isArray item) && flat item) items
  | _ => true
  end.

(** Two execution functions, both absent or ending alike on every
    argument list. *)
Definition same_execute {H : Host}
  (a b : option (Args -> outcome Err value)) : Prop :=
  match a, b with
  | Some f, Some g => forall args, f args = g args
  | None, None => True
  | _, _ => False
  end.

(** The names of a tool set that an assignment stores. *)
Definition storable_name (name : string) : bool :=
  negb (name =? "__proto__")%string.

(** The sanitized value in the words of the specification: every key of
    a tree except those of the denylist, at every nesting level, in nested
    trees and in the elements of a sequence that are trees; an element that
    is not a tree and a value that is neither a tree nor a sequence pass
    through unchanged. *)
Fixpoint without_denylist (v : value) : value :=
  match v with
  | VObj props =>
      VObj (filter (fun '(k, _) => negb (STRIP_KEYS_has k))
              (map (fun '(k, x) => (k, without_denylist x)) props))
  | VArr items =>
      VArr (map (fun item =>
                   match item with
                   | VObj _ => without_denylist item
                   | _ => item
                   end) items)
  | _ => v
  end.

(** A place inside a value: a key of a tree, or a position of a
    sequence, one after the other. *)
Inductive step : Type :=
| Key (k : string)
| Item (i : nat).

(** The value found at a place, if there is one. *)
Fixpoint lookup_path (path : list step) (v : value) : option value :=
  match path with
  | [] => Some v
  | Key k :: rest =>
      match get v k with
      | Some x => lookup_path rest x
      | None => None
      end
  | Item i :: rest =>
      match nth_error (elements v) i with
      | Some x => lookup_path rest x
      | None => None
      end
  end.

(** The places the sanitizer walks to and keeps: every key on the way is
    outside the denylist and is not __proto__, and every element of a
    sequence on the way is a tree. *)
Fixpoint walked (path : list step) (v : value) : bool :=
  match path with
  | [] => true
  | Key k :: rest =>
      kept k &&
      match get v k with
      | Some x => walked rest x
      | None => false
      end
  | Item i :: rest =>
      match nth_error (elements v) i with
      | Some x => is_plain_object x && walked rest x
      | None => false
      end
  end.

(** Every number of the value is an integer below 2^53 in magnitude. *)
Fixpoint safe_numbers (v : value) : bool :=
  match v with
  | VNum n => (Z.abs n <? 2 ^ 53)%Z
  | VArr items => forallb safe_numbers items
  | VObj props => forallb (fun '(_, x) => safe_numbers x) props
  | _ => true
  end.

(** A schema that holds the string schema below a sequence inside a
    sequence, and a tool that has it. *)
Definition nested_examples : object :=
  [("examples", VArr [VArr [string_schema]])].

Definition nested_tool : Tool (H := plain_host) :=
  @mkTool plain_host (VObj nested_examples) None None "nested".

(** A schema that holds the string schema under a key and as an element of
    a sequence. *)
Definition query_schema : object :=
  [("type", VStr "object");
   ("properties", VObj [("q", string_schema)]);
   ("anyOf", VArr [string_schema; VNull])].

(** ** Induction on values *)

Definition value_induction (P : value -> Prop)
  (Pundefined : P VUndefined) (Pnull : P VNull)
  (Pbool : forall b, P (VBool b)) (Pnum : forall n, P (VNum n))
  (Pstr : forall s, P (VStr s))
  (Parr : forall items, Forall P items -> P (VArr items))
  (Pobj : forall props, Forall (fun kv => P (snd kv)) props -> P (VObj props))
  : forall v, P v :=
  fix go (v : value) : P v :=
    match v with
    | VUndefined => Pundefined
    | VNull => Pnull
    | VBool b => Pbool b
    | VNum n => Pnum n
    | VStr s => Pstr s
    | VArr items =>
        Parr items
          ((fix all (l : list value) : Forall P l :=
              match l with
              | [] => Forall_nil P
              | x :: rest => Forall_cons x (go x) (all rest)
              end) items)
    | VObj props =>
        Pobj props
          ((fix all (l : list (string * value))
              : Forall (fun kv => P (snd kv)) l :=
              match l with
              | [] => Forall_nil _
              | kv :: rest => Forall_cons kv (go (snd kv)) (all rest)
              end) props)
    end.

(** ** Association lists and assignment *)

Lemma existsb_false {A : Type} (f : A -> bool) (l : list A) :
  existsb f l = false <-> (forall x, In x l -> f x = false).
Proof.
  induction l as [|a l IH]; simpl.
  - split; [intros _ x [] | reflexivity].
  - rewrite orb_false_iff, IH. split.
    + intros [Ha Hl] x [<- | Hx]; auto.
    + intros Hall. split; [apply Hall; now left | intros x Hx; apply Hall; now right].
Qed.

Lemma assoc_app {A : Type} (key : string) (l1 l2 : list (string * A)) :
  assoc key (l1 ++ l2) =
  match assoc key l1 with Some x => Some x | None => assoc key l2 end.
Proof.
  induction l1 as [|[k x] l1 IH]; simpl; [reflexivity|].
  destruct (k =? key)%string; [reflexivity | exact IH].
Qed.

Lemma assoc_In {A : Type} (key : string) (x : A) (l : list (string * A)) :
  assoc key l = Some x -> In (key, x) l.
Proof.
  induction l as [|[k y] l IH]; simpl; [discriminate|].
  destruct (String.eqb_spec k key) as [->|Hne].
  - intros [= ->]. now left.
  - intros Hl. right. now apply IH.
Qed.

Lemma assoc_None {A : Type} (key : string) (l : list (string * A)) :
  assoc key l = None -> forall x, ~ In (key, x) l.
Proof.
  induction l as [|[k y] l IH]; simpl; [intros _ x []|].
  destruct (String.eqb_spec k key) as [->|Hne]; [discriminate|].
  intros Hl x [[= Hk _] | Hin]; [congruence | exact (IH Hl x Hin)].
Qed.

Lemma In_assoc {A : Type} (key : string) (x : A) (l : list (string * A)) :
  unique_keys l = true -> In (key, x) l -> assoc key l = Some x.
Proof.
  induction l as [|[k y] l IH]; simpl; [intros _ []|].
  destruct (assoc k l) eqn:Hk; [discriminate|].
  intros Hu [[= -> ->] | Hin].
  - now rewrite String.eqb_refl.
  - destruct (String.eqb_spec k key) as [->|Hne]; [|now apply IH].
    exfalso. exact (assoc_None _ _ Hk _ Hin).
Qed.

Lemma In_replace {A : Type} (key k : string) (x y : A) (l : list (string * A)) :
  In (k, y) (replace key x l) -> In (k, y) l \/ (k = key /\ y = x).
Proof.
  induction l as [|[k0 y0] l IH]; simpl; [intros []|].
  destruct (String.eqb_spec k0 key) as [->|Hne]; simpl.
  - intros [[= <- <-] | Hin]; auto.
  - intros [Heq | Hin]; [auto|]. destruct (IH Hin); auto.
Qed.

Lemma js_assign_proto {A : Type} (out : list (string * A)) (x : A) :
  js_assign out "__proto__" x = out.
Proof. reflexivity. Qed.

Lemma js_assign_fresh {A : Type} (out : list (string * A)) (key : string) (x : A) :
  key <> "__proto__" -> assoc key out = None ->
  js_assign out key x = out ++ [(key, x)].
Proof.
  intros Hne Hout. unfold js_assign.
  destruct (String.eqb_spec key "__proto__"); [contradiction|].
  now rewrite Hout.
Qed.

Lemma In_js_assign {A : Type} (out : list (string * A)) (key k : string) (x y : A) :
  In (k, y) (js_assign out key x) ->
  In (k, y) out \/ (k = key /\ y = x /\ key <> "__proto__").
Proof.
  unfold js_assign.
  destruct (String.eqb_spec key "__proto__") as [|Hne]; [auto|].
  destruct (assoc key out).
  - intros Hin. destruct (In_replace _ _ _ _ _ Hin) as [|[-> ->]]; auto.
  - rewrite in_app_iff. simpl. intros [|[[= <- <-]|[]]]; auto.
Qed.

(** ** The sanitizer loop *)

Lemma kept_spec (key : string) :
  kept key = true <-> STRIP_KEYS_has key = false /\ key <> "__proto__".
Proof.
  unfold kept. rewrite andb_true_iff, !negb_true_iff.
  destruct (String.eqb_spec key "__proto__"); intuition congruence.
Qed.

(** Whatever the loop holds in the end was held at the start or stored from
    an entry under a key outside the denylist. *)
Lemma sanitize_loop_In (rhs : value -> value) (l : object) :
  forall out k y,
    In (k, y) (fold_left (sanitize_step rhs) l out) ->
    In (k, y) out \/
    (STRIP_KEYS_has k = false /\ exists v, In (k, v) l /\ y = rhs v).
Proof.
  induction l as [|[key v] l IH]; intros out k y; simpl; [auto|].
  intros Hin. destruct (IH _ _ _ Hin) as [Hout | (Hk & v0 & Hv0 & ->)].
  - destruct (STRIP_KEYS_has key) eqn:Hstrip; [auto|].
    destruct (In_js_assign _ _ _ _ _ Hout) as [|(-> & -> & _)]; [auto|].
    right. split; [exact Hstrip|]. exists v. auto.
  - right. split; [exact Hk|]. exists v0. auto.
Qed.

Lemma sanitize_entries_In (rhs : value -> value) (schema : object) k y :
  In (k, y) (sanitize_entries rhs schema) ->
  STRIP_KEYS_has k = false /\ exists v, In (k, v) schema /\ y = rhs v.
Proof.
  intros Hin. destruct (sanitize_loop_In _ _ _ _ _ Hin) as [[]|]; assumption.
Qed.

Lemma assoc_kept_entries (rhs : value -> value) (schema : object) key :
  assoc key (kept_entries rhs schema) =
  if kept key then option_map rhs (assoc key schema) else None.
Proof.
  unfold kept_entries.
  induction schema as [|[k v] l IH]; simpl; [now destruct (kept key)|].
  destruct (String.eqb_spec k key) as [->|Hne].
  - destruct (kept key) eqn:Hk; simpl.
    + now rewrite String.eqb_refl.
    + rewrite IH. now rewrite ?Hk.
  - destruct (kept k); simpl; [|exact IH].
    destruct (String.eqb_spec k key); [contradiction | exact IH].
Qed.

(** On an object that holds each key once the loop is a filter and a map:
    every stored key is new, so every assignment appends. *)
Lemma sanitize_loop_unique (rhs : value -> value) (l : object) :
  forall out,
    unique_keys l = true ->
    (forall k x, In (k, x) l -> assoc k out = None) ->
    fold_left (sanitize_step rhs) l out = out ++ kept_entries rhs l.
Proof.
  induction l as [|[key v] l IH]; intros out Hu Hfresh; simpl.
  - unfold kept_entries. simpl. now rewrite app_nil_r.
  - simpl in Hu. destruct (assoc key l) eqn:Hkey; [discriminate|].
    unfold kept_entries. simpl. fold (kept_entries rhs l).
    unfold kept. destruct (STRIP_KEYS_has key) eqn:Hstrip; simpl.
    + apply IH; [exact Hu|]. intros k x Hin. apply (Hfresh k x). now right.
    + destruct (String.eqb_spec key "__proto__") as [->|Hne]; simpl.
      * apply IH; [exact Hu|]. intros k x Hin. apply (Hfresh k x). now right.
      * rewrite js_assign_fresh; [|exact Hne|apply (Hfresh key v); now left].
        rewrite IH; [now rewrite <- app_assoc|exact Hu|].
        intros k x Hin. rewrite assoc_app.
        rewrite (Hfresh k x) by now right. simpl.
        destruct (String.eqb_spec key k) as [->|]; [|reflexivity].
        exfalso. exact (assoc_None _ _ Hkey _ Hin).
Qed.

Lemma sanitize_entries_unique (rhs : value -> value) (schema : object) :
  unique_keys schema = true ->
  sanitize_entries rhs schema = kept_entries rhs schema.
Proof.
  intros Hu. unfold sanitize_entries.
  now rewrite sanitize_loop_unique.
Qed.

Lemma sanitize_value_object (schema : object) :
  sanitize_value (VObj schema) = VObj (sanitizeSchema schema).
Proof. reflexivity. Qed.

Lemma is_plain_object_spec (v : value) :
  is_plain_object v = true <-> exists props, v = VObj props.
Proof.
  split.
  - destruct v; try discriminate. eauto.
  - now intros [props ->].
Qed.

(** The mapping of line 39-45, with the test of the source. *)
Lemma sanitize_value_array (items : list value) :
  sanitize_value (VArr items) =
  VArr (map (fun item =>
               if is_plain_object item then sanitize_value item else item)
          items).
Proof.
  simpl. f_equal. apply map_ext. now intros [].
Qed.

Lemma sanitize_value_other (v : value) :
  is_plain_object v = false -> Array_isArray v = false -> sanitize_value v = v.
Proof. now destruct v. Qed.

(** No denylisted key is left on a path the sanitizer walks. *)
Lemma sanitize_value_clean (key : string) :
  STRIP_KEYS_has key = true ->
  forall v, reaches key (sanitize_value v) = false.
Proof.
  intros Hkey v.
  induction v as [| | | | |items IH|props IH] using value_induction;
    try reflexivity.
  - simpl. apply existsb_false. intros x Hx.
    apply in_map_iff in Hx. destruct Hx as (item & <- & Hitem).
    rewrite Forall_forall in IH. specialize (IH _ Hitem).
    destruct item; try reflexivity. exact IH.
  - simpl. apply existsb_false. intros [k y] Hin.
    apply sanitize_entries_In in Hin. destruct Hin as (Hk & v & Hv & ->).
    rewrite Forall_forall in IH. rewrite (IH _ Hv : reaches key (sanitize_value v) = false).
    destruct (String.eqb_spec k key) as [->|]; [congruence | reflexivity].
Qed.

(** C1, as stated, fails: a tree below a sequence that is itself an element
    of a sequence is copied as it is, with its denylisted key. *)
Lemma nested_sequence_keeps_denylisted_key :
  STRIP_KEYS_has "minLength" = true /\
  occurs "minLength" (VObj nested_enum) = true /\
  occurs "minLength" (VObj (sanitizeSchema nested_enum)) = true.
Proof. repeat split; reflexivity. Qed.

(** C1 (amended).  In the output of [sanitizeSchema] no denylisted key
    occurs in the tree itself, in nested trees, or in trees that are
    elements of a sequence, at any depth of such steps; an element of a
    sequence that is not a tree, a nested sequence included, is copied as it
    is.  On a tree that holds each key once, every key outside the denylist
    other than __proto__ is kept, with its value sanitized the same way:
    a tree by [sanitizeSchema], a sequence element by element, anything else
    unchanged. *)
Theorem sanitizeSchema_strips_denylist_keeps_rest (schema : object) :
  (forall key, STRIP_KEYS_has key = true ->
     reaches key (VObj (sanitizeSchema schema)) = false) /\
  (unique_keys schema = true ->
   forall key, STRIP_KEYS_has key = false -> key <> "__proto__" ->
     assoc key (sanitizeSchema schema) =
     option_map sanitize_value (assoc key schema)) /\
  (forall v,
     sanitize_value v =
     match v with
     | VObj tree => VObj (sanitizeSchema tree)
     | VArr items =>
         VArr (map (fun item =>
                      if is_plain_object item then sanitize_value item
                      else item) items)
     | _ => v
     end).
Proof.
  split; [|split].
  - intros key Hkey. rewrite <- sanitize_value_object.
    now apply sanitize_value_clean.
  - intros Hu key Hstrip Hproto. unfold sanitizeSchema.
    rewrite sanitize_entries_unique by exact Hu.
    rewrite assoc_kept_entries.
    now rewrite (proj2 (kept_spec key) (conj Hstrip Hproto)).
  - intros v. destruct v; try reflexivity. apply sanitize_value_array.
Qed.

Lemma sanitizeSchema_strips_denylist_keeps_rest_witness :
  reaches "minLength" (VObj (sanitizeSchema [("type", VStr "string"); ("minLength", VNum 3)])) = false /\
  assoc "type" (sanitizeSchema [("type", VStr "string"); ("minLength", VNum 3)]) =
  Some (VStr "string").
Proof.
  pose proof (sanitizeSchema_strips_denylist_keeps_rest
                [("type", VStr "string"); ("minLength", VNum 3)]) as (Hstrip & Hkeep & _).
  split.
  - apply Hstrip. reflexivity.
  - rewrite (Hkeep eq_refl "type"); [reflexivity | reflexivity | discriminate].
Defined.

Lemma kept_entries_id (rhs : value -> value) (props : object) :
  (forall k x, In (k, x) props -> kept k = true /\ rhs x = x) ->
  kept_entries rhs props = props.
Proof.
  unfold kept_entries.
  induction props as [|[k x] l IH]; intros Hall; [reflexivity|].
  destruct (Hall k x (or_introl eq_refl)) as [Hk Hx].
  cbn [filter]. rewrite Hk. cbn [map]. rewrite Hx.
  f_equal. apply IH. intros k' x' Hin. apply Hall. now right.
Qed.

Lemma occurs_entry (key : string) (props : object) k x :
  occurs key (VObj props) = false -> In (k, x) props ->
  k <> key /\ occurs key x = false.
Proof.
  simpl. rewrite existsb_false. intros Hall Hin.
  specialize (Hall _ Hin). simpl in Hall. apply orb_false_iff in Hall.
  destruct Hall as [Hk Hx]. split; [|exact Hx].
  intros ->. now rewrite String.eqb_refl in Hk.
Qed.

(** A well-formed value without denylisted keys and without the key
    __proto__ at any depth is stored as it is. *)
Lemma sanitize_value_id (v : value) :
  wf v = true ->
  (forall key, STRIP_KEYS_has key = true -> occurs key v = false) ->
  occurs "__proto__" v = false ->
  sanitize_value v = v.
Proof.
  induction v as [| | | | |items IH|props IH] using value_induction;
    try reflexivity; intros Hwf Hstrip Hproto.
  - simpl. f_equal. rewrite <- (map_id items) at 2. apply map_ext_in.
    intros item Hitem. rewrite Forall_forall in IH.
    destruct item; try reflexivity. apply (IH _ Hitem).
    + simpl in Hwf. rewrite forallb_forall in Hwf. now apply Hwf.
    + intros key Hkey. specialize (Hstrip key Hkey). simpl in Hstrip.
      rewrite existsb_false in Hstrip. now apply Hstrip.
    + simpl in Hproto. rewrite existsb_false in Hproto. now apply Hproto.
  - rewrite sanitize_value_object. f_equal. unfold sanitizeSchema.
    simpl in Hwf. apply andb_true_iff in Hwf. destruct Hwf as [Hu Hwf].
    rewrite sanitize_entries_unique by exact Hu.
    apply kept_entries_id. intros k x Hin. split.
    + apply kept_spec. split.
      * destruct (STRIP_KEYS_has k) eqn:Hk; [|reflexivity].
        destruct (occurs_entry _ _ _ _ (Hstrip k Hk) Hin) as [Hne _].
        now contradiction Hne.
      * now destruct (occurs_entry _ _ _ _ Hproto Hin).
    + rewrite Forall_forall in IH. apply (IH _ Hin : _ -> _ -> _ -> sanitize_value x = x).
      * rewrite forallb_forall in Hwf. exact (Hwf _ Hin).
      * intros key Hkey. now destruct (occurs_entry _ _ _ _ (Hstrip key Hkey) Hin).
      * now destruct (occurs_entry _ _ _ _ Hproto Hin).
Qed.

(** C8 at a tree without denylisted keys, the schema of one parameter
    named __proto__: the entry stored under __proto__ is lost, so the output
    is not the input. *)
Theorem sanitizeSchema_drops_proto_key :
  wf (VObj proto_schema) = true /\
  (forall key, STRIP_KEYS_has key = true ->
     occurs key (VObj proto_schema) = false) /\
  sanitizeSchema proto_schema = [("type", VStr "object"); ("properties", VObj [])] /\
  sanitizeSchema proto_schema <> proto_schema.
Proof.
  split; [reflexivity|]. split; [|split; [reflexivity | discriminate]].
  intros key Hkey. unfold proto_schema. cbn [occurs existsb orb].
  destruct (String.eqb_spec "type" key) as [<-|]; [discriminate|].
  destruct (String.eqb_spec "properties" key) as [<-|]; [discriminate|].
  destruct (String.eqb_spec "__proto__" key) as [<-|]; [discriminate|].
  reflexivity.
Qed.

(** X1.  Sanitization is the identity on a well-formed tree that has
    neither a denylisted key nor the key __proto__ at any depth. *)
Theorem sanitizeSchema_identity (schema : object) :
  wf (VObj schema) = true ->
  (forall key, STRIP_KEYS_has key = true -> occurs key (VObj schema) = false) ->
  occurs "__proto__" (VObj schema) = false ->
  sanitizeSchema schema = schema.
Proof.
  intros Hwf Hstrip Hproto.
  pose proof (sanitize_value_id (VObj schema) Hwf Hstrip Hproto) as Hid.
  rewrite sanitize_value_object in Hid. now injection Hid.
Qed.

Lemma sanitizeSchema_identity_witness :
  sanitizeSchema [("type", VStr "object"); ("required", VArr [VStr "q"])]
  = [("type", VStr "object"); ("required", VArr [VStr "q"])].
Proof.
  apply sanitizeSchema_identity; [reflexivity | | reflexivity].
  intros key Hkey. cbn [occurs existsb orb].
  destruct (String.eqb_spec "type" key) as [<-|]; [discriminate|].
  destruct (String.eqb_spec "required" key) as [<-|]; [discriminate|].
  reflexivity.
Defined.

(** ** The flattener *)

(** The test of the source recognizes the Content Blocks of the
    specification, and pushes their texts. *)
Lemma text_part_step (texts : list string) (part : value) :
  (if is_text_part part then push texts (read part "text") else texts) =
  texts ++ match content_block_text part with
           | Some text => [text]
           | None => []
           end.
Proof.
  destruct part as [| | | | |items|props];
    try (cbn; now rewrite app_nil_r).
  unfold is_text_part, has, read, content_block_text, get.
  cbn [not_null typeof andb]. change ("object" =? "object")%string with true.
  cbn [andb].
  destruct (assoc "type" props) as [[| | | |ty| |]|];
    try (cbn; now rewrite app_nil_r).
  cbn [is_string].
  destruct (ty =? "text")%string; cbn [andb];
    destruct (assoc "text" props) as [[| | | |text| |]|];
    cbn; now rewrite ?app_nil_r.
Qed.

Lemma extractTexts_loop (parts : list value) :
  forall texts,
    fold_left
      (fun texts part =>
         if is_text_part part then push texts (read part "text") else texts)
      parts texts
    = texts ++ block_texts parts.
Proof.
  induction parts as [|part parts IH]; intros texts; simpl.
  - now rewrite app_nil_r.
  - rewrite IH, text_part_step. now rewrite <- app_assoc.
Qed.

Lemma extractTexts_block_texts (parts : list value) :
  extractTexts parts = block_texts parts.
Proof. unfold extractTexts. now rewrite extractTexts_loop. Qed.

Lemma nonempty_length {A : Type} (l : list A) :
  (0 <? length l)%nat = match l with [] => false | _ => true end.
Proof. now destruct l. Qed.

(** The decision procedure of [flattenContent], case by case. *)
Lemma flattenContent_cases (result : value) :
  flattenContent result =
  match result with
  | VStr _ => result
  | _ =>
      match collected result with
      | [] => encoding result
      | texts => VStr (join newline texts)
      end
  end.
Proof.
  destruct result as [| | | | |items|props]; try reflexivity.
  - unfold flattenContent, collected, encoding.
    cbn [typeof not_null has read get Array_isArray elements andb].
    change ("object" =? "string")%string with false.
    change ("object" =? "object")%string with true. cbn [andb]. cbv iota.
    rewrite extractTexts_block_texts, nonempty_length.
    now destruct (block_texts items).
  - unfold flattenContent, collected, encoding, has, read, get.
    cbn [typeof not_null Array_isArray andb].
    change ("object" =? "string")%string with false.
    change ("object" =? "object")%string with true. cbv iota.
    destruct (assoc "content" props) as [[| | | | |parts|]|];
      cbn [Array_isArray andb elements]; try reflexivity.
    rewrite extractTexts_block_texts, nonempty_length.
    now destruct (block_texts parts).
Qed.

Lemma JSON_stringify_defined (v : value) :
  v <> VUndefined -> exists text, JSON_stringify v = Some text.
Proof.
  destruct v as [| |[]| | | |]; intros Hv; try (eexists; reflexivity).
  now contradiction Hv.
Qed.

Lemma JSON_stringify_object_nonempty (props : object) :
  exists text, JSON_stringify (VObj props) = Some text /\ text <> EmptyString.
Proof. eexists. split; [reflexivity | discriminate]. Qed.

(** C2.  For a tree that holds a sequence under content, and for a bare
    sequence, [extractTexts] collects the text fields of exactly the
    elements that are Content Blocks, in order, and when at least one text
    is collected [flattenContent] returns the texts joined by one line feed;
    two blocks under content with the texts a and b give a, line feed, b. *)
Theorem flattenContent_joins_text_blocks :
  (forall result parts,
     get result "content" = Some (VArr parts) \/ result = VArr parts ->
     extractTexts parts = block_texts parts /\
     (block_texts parts <> [] ->
      flattenContent result = VStr (join newline (block_texts parts)))) /\
  flattenContent (VObj [("content", VArr [text_block "a"; text_block "b"])])
  = VStr ("a" ++ newline ++ "b")%string.
Proof.
  split; [|reflexivity].
  intros result parts Hshape. split; [apply extractTexts_block_texts|].
  intros Hne. rewrite flattenContent_cases.
  destruct Hshape as [Hget | ->].
  - destruct result; try discriminate Hget. simpl in Hget.
    unfold collected. rewrite Hget.
    destruct (block_texts parts); [contradiction | reflexivity].
  - unfold collected.
    destruct (block_texts parts); [contradiction | reflexivity].
Qed.

Lemma flattenContent_joins_text_blocks_witness :
  flattenContent (VArr [text_block "x"; VNum 4; text_block "y"])
  = VStr ("x" ++ newline ++ "y")%string.
Proof.
  destruct flattenContent_joins_text_blocks as [Hall _].
  destruct (Hall (VArr [text_block "x"; VNum 4; text_block "y"])
                 [text_block "x"; VNum 4; text_block "y"]
                 (or_intror eq_refl)) as [_ Hjoin].
  apply Hjoin. discriminate.
Defined.

(** C5 at the result of a tool that returns nothing: [flattenContent]
    hands back [undefined], which is not a string. *)
Theorem flattenContent_undefined :
  flattenContent VUndefined = VUndefined /\
  typeof (flattenContent VUndefined) <> "string" /\
  forall text, flattenContent VUndefined <> VStr text.
Proof. repeat split; discriminate. Qed.

(** X2.  On a result that is JSON data (null, a boolean, an integer, a
    string, or a sequence or a tree of such values and of [undefined])
    [flattenContent] returns a string: a string unchanged and, when no text
    is collected, the JSON text of the whole value (for integers below 2^53
    in magnitude), which for an object is never empty.  A sequence with an
    image block only and the object with foo 1 give their JSON text. *)
Theorem flattenContent_string_unless_undefined :
  (forall result, result <> VUndefined ->
     exists text, flattenContent result = VStr text) /\
  (forall s, flattenContent (VStr s) = VStr s) /\
  (forall result, safe_numbers result = true ->
     typeof result <> "string" -> collected result = [] ->
     flattenContent result = encoding result) /\
  (forall props, collected (VObj props) = [] ->
     exists text, flattenContent (VObj props) = VStr text /\ text <> EmptyString) /\
  flattenContent (VArr [VObj [("type", VStr "image"); ("url", VStr "x")]])
  = VStr (String "[" (String "{" (QuoteJSONString "type" ++ ":" ++ QuoteJSONString "image"
          ++ "," ++ QuoteJSONString "url" ++ ":" ++ QuoteJSONString "x" ++ "}]")))%string /\
  flattenContent (VObj [("foo", VNum 1)])
  = VStr ("{" ++ QuoteJSONString "foo" ++ ":1}")%string.
Proof.
  split; [|split; [|split; [|split; [|split]]]]; try reflexivity.
  - intros result Hdef. rewrite flattenContent_cases.
    destruct (JSON_stringify_defined result Hdef) as [text Htext].
    unfold encoding. rewrite Htext.
    destruct result; try (now eexists); destruct (collected _); now eexists.
  - intros result _ Hty Hnone. rewrite flattenContent_cases, Hnone.
    destruct result; try reflexivity. now contradiction Hty.
  - intros props Hnone. rewrite flattenContent_cases, Hnone.
    unfold encoding. destruct (JSON_stringify_object_nonempty props) as (text & -> & Hne).
    now exists text.
Qed.

(** ** The adapter *)

Section Adapter.
Context {H : Host}.

(** What one turn of the loop makes of a tool, field by field. *)
Lemma adapt_fields (tool tool' : Tool) :
  adapt tool = Returned tool' ->
  exists raw,
    asSchema (inputSchema tool) = Returned raw /\
    other tool' = other tool /\
    execute tool' = option_map wrapped (execute tool) /\
    toModelOutput tool' =
      match execute tool with
      | Some _ => None
      | None => toModelOutput tool
      end /\
    inputSchema tool' =
      if skips_sanitation raw then inputSchema tool
      else jsonSchema (VObj (sanitizeSchema (Object_entries raw))).
Proof.
  unfold adapt, bind. destruct (asSchema (inputSchema tool)) as [raw|e];
    [|discriminate].
  intros Hret. exists raw. split; [reflexivity|].
  destruct (skips_sanitation raw); injection Hret as <-;
    unfold wrapExecute, with_inputSchema; cbn [execute];
    destruct (execute tool) eqn:Hexec; cbn; rewrite ?Hexec; auto.
Qed.

Lemma adapt_returns (tool : Tool) (raw : value) :
  asSchema (inputSchema tool) = Returned raw ->
  exists tool', adapt tool = Returned tool'.
Proof.
  intros Hraw. unfold adapt, bind. rewrite Hraw.
  destruct (skips_sanitation raw); eauto.
Qed.

Lemma assign_adapted_thrown (l : ToolSet) (e : Err) :
  fold_left assign_adapted l (Thrown e) = Thrown e.
Proof.
  induction l as [|[name tool] l IH]; [reflexivity | exact IH].
Qed.

(** On a tool set that holds each name once the loop adapts every tool in
    turn and stores it under its name. *)
Lemma sanitize_tools_loop (l : ToolSet) :
  forall out,
    unique_keys l = true ->
    (forall k x, In (k, x) l -> assoc k out = None) ->
    fold_left assign_adapted l (Returned out) =
    (adapted <- adapt_all l ;; Returned (out ++ filter storable adapted)).
Proof.
  induction l as [|[name tool] l IH]; intros out Hu Hfresh.
  - simpl. now rewrite app_nil_r.
  - simpl in Hu. destruct (assoc name l) eqn:Hname; [discriminate|].
    cbn [fold_left assign_adapted adapt_all bind].
    destruct (adapt tool) as [tool'|e]; cbn [bind];
      [|apply assign_adapted_thrown].
    destruct (String.eqb_spec name "__proto__") as [->|Hne].
    + rewrite js_assign_proto, IH; [|exact Hu|].
      * now destruct (adapt_all l).
      * intros k x Hin. apply (Hfresh k x). now right.
    + rewrite js_assign_fresh; [|exact Hne|apply (Hfresh name tool); now left].
      rewrite IH; [|exact Hu|].
      * destruct (adapt_all l) as [rest|e]; [|reflexivity].
        cbn [bind filter]. unfold storable at 2. cbn [fst].
        destruct (String.eqb_spec name "__proto__"); [contradiction|].
        cbn [negb]. now rewrite <- app_assoc.
      * intros k x Hin. rewrite assoc_app.
        rewrite (Hfresh k x) by now right. simpl.
        destruct (String.eqb_spec name k) as [->|]; [|reflexivity].
        exfalso. exact (assoc_None _ _ Hname _ Hin).
Qed.

Lemma sanitizeTools_unique (tools : ToolSet) :
  unique_keys tools = true ->
  sanitizeTools tools =
  (adapted <- adapt_all tools ;; Returned (filter storable adapted)).
Proof.
  intros Hu. unfold sanitizeTools. now rewrite sanitize_tools_loop.
Qed.

Lemma adapt_all_assoc (l adapted : ToolSet) :
  adapt_all l = Returned adapted ->
  forall name,
    match assoc name l with
    | Some tool =>
        exists tool', adapt tool = Returned tool' /\
                      assoc name adapted = Some tool'
    | None => assoc name adapted = None
    end.
Proof.
  revert adapted. induction l as [|[k tool] l IH]; intros adapted.
  - intros [= <-] name. reflexivity.
  - cbn [adapt_all bind]. destruct (adapt tool) as [tool'|e] eqn:Htool; [|discriminate].
    destruct (adapt_all l) as [rest|e]; [|discriminate].
    intros [= <-] name. specialize (IH rest eq_refl name). simpl.
    destruct (k =? name)%string; [eauto | exact IH].
Qed.

Lemma adapt_all_returns (l : ToolSet) :
  (forall name tool, In (name, tool) l ->
     exists raw, asSchema (inputSchema tool) = Returned raw) ->
  exists adapted, adapt_all l = Returned adapted.
Proof.
  induction l as [|[k tool] l IH]; intros Hall; [now eexists|].
  destruct (Hall k tool (or_introl eq_refl)) as [raw Hraw].
  destruct (adapt_returns _ _ Hraw) as [tool' Htool].
  destruct IH as [rest Hrest]; [intros n t Hin; apply (Hall n t); now right|].
  cbn [adapt_all bind]. rewrite Htool, Hrest. now eexists.
Qed.

Lemma assoc_filter_storable {A : Type} (l : list (string * A)) (name : string) :
  assoc name (filter storable l) =
  if (name =? "__proto__")%string then None else assoc name l.
Proof.
  induction l as [|[k x] l IH]; cbn [filter assoc];
    [now destruct (name =? "__proto__")%string|].
  unfold storable at 1. cbn [fst].
  destruct (String.eqb_spec k "__proto__") as [Hk|Hk]; cbn [negb assoc].
  - rewrite IH. subst k.
    destruct (String.eqb_spec name "__proto__") as [Hn|Hn]; [reflexivity|].
    destruct (String.eqb_spec "__proto__" name); [congruence | reflexivity].
  - destruct (String.eqb_spec k name) as [Hkn|Hkn]; [|exact IH].
    subst k. destruct (String.eqb_spec name "__proto__");
      [contradiction | reflexivity].
Qed.

Lemma unique_keys_filter_storable {A : Type} (l : list (string * A)) :
  unique_keys l = true -> unique_keys (filter storable l) = true.
Proof.
  induction l as [|[k x] l IH]; simpl; [reflexivity|].
  destruct (assoc k l) eqn:Hk; [discriminate|]. intros Hu.
  destruct (storable (k, x)); [|now apply IH].
  simpl. rewrite assoc_filter_storable, Hk.
  destruct (k =? "__proto__")%string; now apply IH.
Qed.

Lemma adapt_all_unique (l adapted : ToolSet) :
  adapt_all l = Returned adapted ->
  unique_keys l = true -> unique_keys adapted = true.
Proof.
  revert adapted. induction l as [|[k tool] l IH]; intros adapted.
  - now intros [= <-].
  - intros Hall. pose proof (adapt_all_assoc _ _ Hall) as Hassoc.
    cbn [adapt_all bind] in Hall.
    destruct (adapt tool) as [tool'|e]; [|discriminate].
    destruct (adapt_all l) as [rest|e] eqn:Hrest; [|discriminate].
    injection Hall as <-. simpl.
    destruct (assoc k l) eqn:Hk; [discriminate|]. intros Hu.
    pose proof (adapt_all_assoc _ _ Hrest k) as Hrk. rewrite Hk in Hrk.
    rewrite Hrk. now apply (IH rest).
Qed.

(** The output of [sanitizeTools], name by name. *)
Lemma sanitizeTools_lookup (tools out : ToolSet) :
  unique_keys tools = true ->
  sanitizeTools tools = Returned out ->
  unique_keys out = true /\
  forall name,
    match assoc name tools with
    | Some tool =>
        exists tool', adapt tool = Returned tool' /\
          assoc name out = if (name =? "__proto__")%string then None else Some tool'
    | None => assoc name out = None
    end.
Proof.
  intros Hu. rewrite sanitizeTools_unique by exact Hu.
  destruct (adapt_all tools) as [adapted|e] eqn:Hall; [|discriminate].
  intros [= <-]. split.
  - apply unique_keys_filter_storable. now apply (adapt_all_unique tools).
  - intros name. rewrite assoc_filter_storable.
    pose proof (adapt_all_assoc _ _ Hall name) as Hname.
    destruct (assoc name tools) as [tool|].
    + destruct Hname as (tool' & Htool & ->). now exists tool'.
    + rewrite Hname. now destruct (name =? "__proto__")%string.
Qed.

(** An output tool is what one turn of the loop makes of the input tool of
    the same name. *)
Lemma sanitizeTools_adapted (tools out : ToolSet) name (tool tool' : Tool) :
  unique_keys tools = true ->
  sanitizeTools tools = Returned out ->
  assoc name tools = Some tool ->
  assoc name out = Some tool' ->
  adapt tool = Returned tool'.
Proof.
  intros Hu Hout Htool Htool'.
  destruct (sanitizeTools_lookup _ _ Hu Hout) as [_ Hall].
  specialize (Hall name). rewrite Htool in Hall.
  destruct Hall as (t & Ht & Hlook). rewrite Htool' in Hlook.
  destruct (name =? "__proto__")%string; [discriminate|].
  now injection Hlook as <-.
Qed.

End Adapter.

Lemma sanitizeSchema_stripped (tree : object) (key : string) :
  STRIP_KEYS_has key = true -> assoc key (sanitizeSchema tree) = None.
Proof.
  intros Hkey. destruct (assoc key (sanitizeSchema tree)) as [y|] eqn:Hy;
    [|reflexivity].
  apply assoc_In, sanitize_entries_In in Hy. destruct Hy as [Hno _].
  congruence.
Qed.

(** ** The claims on the adapter *)

(** C3.  The execution function of an adapted tool calls the original on
    the same arguments, waits for its result and returns [flattenContent]
    of it; when the original returns the sequence holding the one text
    block result, the adapted function returns the string result. *)
Theorem adapted_execute_flattens {H : Host} (tools out : ToolSet)
  (name : string) (tool tool' : Tool) (original : Args -> outcome Err value) :
  unique_keys tools = true ->
  sanitizeTools tools = Returned out ->
  assoc name tools = Some tool ->
  assoc name out = Some tool' ->
  execute tool = Some original ->
  exists f,
    execute tool' = Some f /\
    (forall args,
       f args = (result <- original args ;; Returned (flattenContent result))) /\
    (forall args,
       original args = Returned (VArr [text_block "result"]) ->
       f args = Returned (VStr "result")).
Proof.
  intros Hu Hout Htool Htool' Hexec.
  pose proof (sanitizeTools_adapted _ _ _ _ _ Hu Hout Htool Htool') as Hadapt.
  destruct (adapt_fields _ _ Hadapt) as (raw & _ & _ & Hex & _).
  rewrite Hexec in Hex. exists (wrapped original).
  split; [exact Hex|]. split; [reflexivity|].
  intros args Hres. unfold wrapped. now rewrite Hres.
Qed.

Lemma adapted_execute_flattens_witness :
  exists f,
    execute echo_adapted = Some f /\ f [VNull] = Returned (VStr "result").
Proof.
  destruct (adapted_execute_flattens (H := plain_host)
              demo_tools demo_adapted "echo" echo_tool echo_adapted
              echo_execute eq_refl eq_refl eq_refl eq_refl eq_refl)
    as (f & Hf & _ & Hres).
  exists f. split; [exact Hf|]. apply Hres. reflexivity.
Defined.

Lemma kept_entries_without_proto (rhs rhs' : value -> value) (props : object) :
  (forall k x, In (k, x) props -> k <> "__proto__" /\ rhs x = rhs' x) ->
  kept_entries rhs props =
  filter (fun '(k, _) => negb (STRIP_KEYS_has k))
    (map (fun '(k, x) => (k, rhs' x)) props).
Proof.
  unfold kept_entries.
  induction props as [|[k x] l IH]; intros Hall; [reflexivity|].
  destruct (Hall k x (or_introl eq_refl)) as [Hproto Hx].
  assert (Hkept : kept k = negb (STRIP_KEYS_has k)).
  { unfold kept. destruct (String.eqb_spec k "__proto__"); [contradiction|].
    apply andb_true_r. }
  specialize (IH (fun k' x' Hin => Hall k' x' (or_intror Hin))).
  cbn [filter map]. rewrite Hkept.
  destruct (negb (STRIP_KEYS_has k)); cbn [map]; rewrite IH; now rewrite ?Hx.
Qed.

(** On a well-formed value without the key __proto__ the loop computes
    the sanitized value of the specification. *)
Lemma sanitize_value_without_denylist (v : value) :
  wf v = true -> occurs "__proto__" v = false ->
  sanitize_value v = without_denylist v.
Proof.
  induction v as [| | | | |items IH|props IH] using value_induction;
    try reflexivity; intros Hwf Hproto; rewrite Forall_forall in IH.
  - cbn [sanitize_value without_denylist]. f_equal. apply map_ext_in.
    intros item Hitem. destruct item; try reflexivity.
    apply (IH _ Hitem).
    + cbn [wf] in Hwf. rewrite forallb_forall in Hwf. exact (Hwf _ Hitem).
    + cbn [occurs] in Hproto. rewrite existsb_false in Hproto.
      exact (Hproto _ Hitem).
  - cbn [wf] in Hwf. apply andb_true_iff in Hwf. destruct Hwf as [Hu Hwf].
    rewrite forallb_forall in Hwf.
    rewrite sanitize_value_object. cbn [without_denylist]. f_equal.
    unfold sanitizeSchema. rewrite sanitize_entries_unique by exact Hu.
    apply kept_entries_without_proto. intros k x Hin.
    destruct (occurs_entry _ _ _ _ Hproto Hin) as [Hk Hx].
    split; [exact Hk|]. exact (IH _ Hin (Hwf _ Hin) Hx).
Qed.

(** What stands at a place the sanitizer walks to stands there in the
    output, sanitized. *)
Lemma sanitize_value_path (path : list step) :
  forall v sub,
    wf v = true -> walked path v = true ->
    lookup_path path v = Some sub ->
    lookup_path path (sanitize_value v) = Some (sanitize_value sub).
Proof.
  induction path as [|[k|i] rest IH]; intros v sub Hwf Hwalk Hsub.
  - cbn in Hsub. injection Hsub as <-. reflexivity.
  - cbn [walked] in Hwalk. apply andb_true_iff in Hwalk.
    destruct Hwalk as [Hk Hwalk]. cbn [lookup_path] in Hsub.
    destruct v; try discriminate Hwalk. cbn [get] in Hwalk, Hsub.
    destruct (assoc k props) as [x|] eqn:Hx; [|discriminate].
    cbn [wf] in Hwf. apply andb_true_iff in Hwf. destruct Hwf as [Hu Hwf].
    rewrite forallb_forall in Hwf.
    rewrite sanitize_value_object. cbn [lookup_path get].
    unfold sanitizeSchema. rewrite sanitize_entries_unique by exact Hu.
    rewrite assoc_kept_entries, Hk, Hx. cbn [option_map].
    apply IH; [|exact Hwalk|exact Hsub].
    exact (Hwf _ (assoc_In _ _ _ Hx)).
  - cbn [walked] in Hwalk. cbn [lookup_path] in Hsub.
    destruct v; try (destruct i; discriminate Hwalk).
    cbn [elements] in Hwalk, Hsub.
    destruct (nth_error items i) as [x|] eqn:Hx; [|discriminate].
    apply andb_true_iff in Hwalk. destruct Hwalk as [Htree Hwalk].
    cbn [wf] in Hwf. rewrite forallb_forall in Hwf.
    rewrite sanitize_value_array. cbn [lookup_path elements].
    rewrite nth_error_map, Hx. cbn [option_map]. rewrite Htree.
    apply IH; [|exact Hwalk|exact Hsub].
    exact (Hwf _ (nth_error_In _ _ Hx)).
Qed.

(** C4, as stated, fails: a canonical schema that holds type string with
    minLength 3 below a sequence inside a sequence comes out as it is, and
    the adapted schema holds minLength. *)
Lemma nested_string_schema_keeps_minLength :
  @asSchema plain_host (inputSchema nested_tool) = Returned (VObj nested_examples) /\
  lookup_path [Key "examples"; Item 0; Item 0] (VObj nested_examples)
  = Some string_schema /\
  sanitizeTools [("nested", nested_tool)] = Returned [("nested", nested_tool)] /\
  occurs "minLength" (inputSchema nested_tool) = true.
Proof. repeat split; reflexivity. Qed.

(** C4 (amended).  When the canonical schema of a tool is a tree, the
    input schema of the adapted tool is the descriptor built from the
    sanitized tree.  No denylisted key is left in the tree, in nested
    trees or in trees that are elements of a sequence; on a well-formed
    tree without the key __proto__ the sanitized tree is the tree without
    its denylisted keys, as the specification words it (an element of a
    sequence that is not a tree is copied as it is).  What stands at a
    place the sanitizer walks to stands there sanitized: where the
    canonical schema holds type string with minLength 3, the adapted
    schema holds type string alone. *)
Theorem adapted_schema_is_sanitized {H : Host} (tools out : ToolSet)
  (name : string) (tool tool' : Tool) (tree : object) :
  unique_keys tools = true ->
  sanitizeTools tools = Returned out ->
  assoc name tools = Some tool ->
  assoc name out = Some tool' ->
  asSchema (inputSchema tool) = Returned (VObj tree) ->
  inputSchema tool' = jsonSchema (VObj (sanitizeSchema tree)) /\
  (forall key, STRIP_KEYS_has key = true ->
     reaches key (VObj (sanitizeSchema tree)) = false) /\
  (wf (VObj tree) = true -> occurs "__proto__" (VObj tree) = false ->
   VObj (sanitizeSchema tree) = without_denylist (VObj tree)) /\
  (wf (VObj tree) = true ->
   forall path sub,
     walked path (VObj tree) = true ->
     lookup_path path (VObj tree) = Some sub ->
     lookup_path path (VObj (sanitizeSchema tree)) = Some (sanitize_value sub)) /\
  (wf (VObj tree) = true ->
   forall path,
     walked path (VObj tree) = true ->
     lookup_path path (VObj tree) = Some string_schema ->
     lookup_path path (VObj (sanitizeSchema tree))
     = Some (VObj [("type", VStr "string")])).
Proof.
  intros Hu Hout Htool Htool' Hraw.
  pose proof (sanitizeTools_adapted _ _ _ _ _ Hu Hout Htool Htool') as Hadapt.
  destruct (adapt_fields _ _ Hadapt) as (raw & Hraw' & _ & _ & _ & Hschema).
  rewrite Hraw in Hraw'. injection Hraw' as <-.
  cbn in Hschema.
  split; [exact Hschema|]. split; [|split; [|split]].
  - intros key Hkey. rewrite <- sanitize_value_object.
    now apply sanitize_value_clean.
  - intros Hwf Hproto. rewrite <- sanitize_value_object.
    now apply sanitize_value_without_denylist.
  - intros Hwf path sub Hwalk Hsub. rewrite <- sanitize_value_object.
    now apply sanitize_value_path.
  - intros Hwf path Hwalk Hsub. rewrite <- sanitize_value_object.
    now rewrite (sanitize_value_path path _ _ Hwf Hwalk Hsub).
Qed.

Lemma adapted_schema_is_sanitized_witness :
  inputSchema echo_adapted = VObj [("type", VStr "string")] /\
  reaches "minLength" (VObj (sanitizeSchema [("type", VStr "string"); ("minLength", VNum 3)]))
  = false /\
  lookup_path [] (VObj (sanitizeSchema [("type", VStr "string"); ("minLength", VNum 3)]))
  = Some (VObj [("type", VStr "string")]).
Proof.
  destruct (adapted_schema_is_sanitized (H := plain_host)
              demo_tools demo_adapted "echo" echo_tool echo_adapted
              [("type", VStr "string"); ("minLength", VNum 3)]
              eq_refl eq_refl eq_refl eq_refl eq_refl)
    as (Hschema & Hstrip & _ & _ & Hex).
  split; [exact Hschema|]. split; [apply Hstrip; reflexivity|].
  apply (Hex eq_refl []); reflexivity.
Defined.

(** The same at a schema that holds the string schema under a key and as
    an element of a sequence. *)
Lemma query_schema_is_sanitized :
  sanitizeSchema query_schema =
  [("type", VStr "object");
   ("properties", VObj [("q", VObj [("type", VStr "string")])]);
   ("anyOf", VArr [VObj [("type", VStr "string")]; VNull])].
Proof. reflexivity. Qed.

(** C6, as stated, fails: a tool without an execution function is handed
    on as it is, with its result-rendering hook. *)
Lemma hook_kept_without_execute :
  unique_keys demo_tools = true /\
  sanitizeTools demo_tools = Returned demo_adapted /\
  assoc "static" demo_tools = Some static_tool /\
  assoc "static" demo_adapted = Some static_tool /\
  toModelOutput static_tool = Some 1.
Proof. repeat split; reflexivity. Qed.

(** C6 (amended).  For every input tool that has an execution function the
    result-rendering hook is absent on the output tool; a tool without an
    execution function keeps the hook it had. *)
Theorem hook_removed_when_wrapped {H : Host} (tools out : ToolSet)
  (name : string) (tool tool' : Tool) :
  unique_keys tools = true ->
  sanitizeTools tools = Returned out ->
  assoc name tools = Some tool ->
  assoc name out = Some tool' ->
  (execute tool <> None -> toModelOutput tool' = None) /\
  (execute tool = None -> toModelOutput tool' = toModelOutput tool).
Proof.
  intros Hu Hout Htool Htool'.
  pose proof (sanitizeTools_adapted _ _ _ _ _ Hu Hout Htool Htool') as Hadapt.
  destruct (adapt_fields _ _ Hadapt) as (raw & _ & _ & _ & Hhook & _).
  rewrite Hhook. destruct (execute tool); split; congruence.
Qed.

Lemma hook_removed_when_wrapped_witness :
  toModelOutput echo_tool = Some 7 /\ toModelOutput echo_adapted = None.
Proof.
  split; [reflexivity|].
  apply (hook_removed_when_wrapped (H := plain_host)
           demo_tools demo_adapted "echo" echo_tool echo_adapted
           eq_refl eq_refl eq_refl eq_refl).
  discriminate.
Defined.

(** C7, as stated, fails: a canonical schema that is a sequence is not
    tree-shaped, yet it passes the test of line 146 and the descriptor is
    replaced. *)
Lemma sequence_schema_is_replaced :
  @asSchema plain_host (inputSchema listed_tool) = Returned (VArr []) /\
  is_plain_object (VArr []) = false /\
  sanitizeTools [("listed", listed_tool)] = Returned [("listed", listed_adapted)] /\
  inputSchema listed_adapted <> inputSchema listed_tool.
Proof. repeat split; try reflexivity. discriminate. Qed.

(** C7 (amended).  When the canonical schema of a tool is absent (falsy) or
    not of type object, that is neither a tree nor a sequence, the output
    tool keeps the input-schema descriptor of the input tool, and its
    execution function, if present, is the original one wrapped. *)
Theorem schema_kept_when_not_object {H : Host} (tools out : ToolSet)
  (name : string) (tool tool' : Tool) (raw : value) :
  unique_keys tools = true ->
  sanitizeTools tools = Returned out ->
  assoc name tools = Some tool ->
  assoc name out = Some tool' ->
  asSchema (inputSchema tool) = Returned raw ->
  skips_sanitation raw = true ->
  inputSchema tool' = inputSchema tool /\
  execute tool' = option_map wrapped (execute tool) /\
  skips_sanitation raw = negb (is_plain_object raw || Array_isArray raw).
Proof.
  intros Hu Hout Htool Htool' Hraw Hskip.
  pose proof (sanitizeTools_adapted _ _ _ _ _ Hu Hout Htool Htool') as Hadapt.
  destruct (adapt_fields _ _ Hadapt) as (raw' & Hraw' & _ & Hex & _ & Hschema).
  rewrite Hraw in Hraw'. injection Hraw' as <-. rewrite Hskip in Hschema.
  split; [exact Hschema|]. split; [exact Hex|].
  destruct raw as [| |[]|n|s| |]; try reflexivity.
  - unfold skips_sanitation. cbn. now destruct (n =? 0)%Z.
  - unfold skips_sanitation. cbn. now destruct (s =? EmptyString)%string.
Qed.

Lemma schema_kept_when_not_object_witness :
  inputSchema bare_adapted = inputSchema bare_tool /\
  execute bare_adapted = option_map wrapped (execute bare_tool) /\
  skips_sanitation VNull = negb (is_plain_object VNull || Array_isArray VNull).
Proof.
  exact (schema_kept_when_not_object (H := plain_host)
           [("bare", bare_tool)] [("bare", bare_adapted)]
           "bare" bare_tool bare_adapted VNull
           eq_refl eq_refl eq_refl eq_refl eq_refl eq_refl).
Defined.

(** X15.  The wrapper catches nothing: on the arguments on which the
    original execution function throws (or its promise is rejected), the
    execution function of the wrapped tool throws the same value. *)
Theorem wrapped_execute_rethrows {H : Host} (tool : Tool)
  (original : Args -> outcome Err value) :
  execute tool = Some original ->
  exists f,
    execute (wrapExecute tool) = Some f /\
    (forall args e, original args = Thrown e -> f args = Thrown e).
Proof.
  intros Hexec. exists (wrapped original). unfold wrapExecute.
  rewrite Hexec. split; [reflexivity|].
  intros args e He. unfold wrapped. now rewrite He.
Qed.

Lemma wrapped_execute_rethrows_witness :
  exists f,
    execute (wrapExecute echo_tool) = Some f /\
    f [] = Thrown "no input".
Proof.
  destruct (wrapped_execute_rethrows (H := plain_host) echo_tool echo_execute eq_refl)
    as (f & Hf & Hthrow).
  exists f. split; [exact Hf|]. apply Hthrow. reflexivity.
Defined.

Lemma tool_eq {H : Host} (a b : Tool) :
  inputSchema a = inputSchema b -> execute a = execute b ->
  toModelOutput a = toModelOutput b -> other a = other b -> a = b.
Proof.
  destruct a, b. cbn. intros -> -> -> ->. reflexivity.
Qed.

(** C10, as stated, fails: a tool without an execution function whose
    canonical schema is a sequence, not a tree, does not come out
    unchanged. *)
Lemma schemaless_tool_is_changed :
  execute listed_tool = None /\
  @asSchema plain_host (inputSchema listed_tool) = Returned (VArr []) /\
  is_plain_object (VArr []) = false /\
  sanitizeTools [("listed", listed_tool)] = Returned [("listed", listed_adapted)] /\
  listed_adapted <> listed_tool.
Proof. repeat split; try reflexivity. discriminate. Qed.

(** C10 (amended).  On a tool set that holds each name once and whose
    schemas all resolve, [sanitizeTools] returns a tool set that holds each
    name once; each of its names is a name of the input, and every input
    name other than __proto__ is one of its names.  An output tool equals
    the input tool of its name in every field other than inputSchema,
    execute and toModelOutput; when the input tool has no execution
    function, execute and toModelOutput are unchanged as well, and when in
    addition its canonical schema is absent or not of type object, the
    output tool is the input tool. *)
Theorem sanitizeTools_frame {H : Host} (tools : ToolSet) :
  unique_keys tools = true ->
  (forall name tool, In (name, tool) tools ->
     exists raw, asSchema (inputSchema tool) = Returned raw) ->
  exists out,
    sanitizeTools tools = Returned out /\
    unique_keys out = true /\
    (forall name, assoc name out <> None -> assoc name tools <> None) /\
    (forall name, name <> "__proto__" ->
       assoc name tools <> None -> assoc name out <> None) /\
    (forall name tool tool',
       assoc name tools = Some tool -> assoc name out = Some tool' ->
       other tool' = other tool /\
       (execute tool = None ->
        execute tool' = None /\ toModelOutput tool' = toModelOutput tool) /\
       (execute tool = None ->
        forall raw, asSchema (inputSchema tool) = Returned raw ->
                    skips_sanitation raw = true -> tool' = tool)).
Proof.
  intros Hu Hresolve.
  destruct (adapt_all_returns _ Hresolve) as [adapted Hadapted].
  pose proof (sanitizeTools_unique _ Hu) as Hout.
  rewrite Hadapted in Hout. cbn [bind] in Hout.
  exists (filter storable adapted). split; [exact Hout|].
  destruct (sanitizeTools_lookup _ _ Hu Hout) as [Huo Hall].
  split; [exact Huo|]. split; [|split].
  - intros name Hin. specialize (Hall name).
    destruct (assoc name tools); [discriminate | contradiction].
  - intros name Hproto Hin. specialize (Hall name).
    destruct (assoc name tools) as [tool|]; [|contradiction].
    destruct Hall as (tool' & _ & ->).
    destruct (String.eqb_spec name "__proto__"); [contradiction | discriminate].
  - intros name tool tool' Htool Htool'.
    pose proof (sanitizeTools_adapted _ _ _ _ _ Hu Hout Htool Htool') as Hadapt.
    destruct (adapt_fields _ _ Hadapt)
      as (raw & Hraw & Hother & Hex & Hhook & Hschema).
    split; [exact Hother|]. split.
    + intros Hnone. rewrite Hnone in Hex, Hhook. now split.
    + intros Hnone raw' Hraw' Hskip. rewrite Hraw in Hraw'.
      injection Hraw' as <-. rewrite Hskip in Hschema.
      rewrite Hnone in Hex, Hhook. cbn in Hex.
      apply tool_eq; congruence.
Qed.

Lemma sanitizeTools_frame_witness :
  exists out,
    sanitizeTools demo_tools = Returned out /\
    unique_keys out = true /\
    assoc "static" out = Some static_tool.
Proof.
  destruct (sanitizeTools_frame (H := plain_host) demo_tools eq_refl)
    as (out & Hout & Hu & _ & Hnames & Hframe).
  - intros name tool _. exists (inputSchema tool). reflexivity.
  - exists out. split; [exact Hout|]. split; [exact Hu|].
    destruct (assoc "static" out) as [tool'|] eqn:Hstatic.
    + destruct (Hframe "static" static_tool tool' eq_refl Hstatic)
        as (_ & _ & Hsame).
      now rewrite (Hsame eq_refl VUndefined eq_refl eq_refl).
    + exfalso. apply (Hnames "static"); [discriminate | discriminate | exact Hstatic].
Defined.

(** ** Further properties *)

(** A tool named __proto__ is not stored: the tool set that comes out of
    [sanitizeTools] lacks the name. *)
Lemma proto_named_tool_is_dropped :
  sanitizeTools (H := plain_host) [("__proto__", echo_tool)] = Returned [].
Proof. reflexivity. Qed.

(** X3.  On a tree that holds each key once, [sanitizeSchema] is a filter
    and a map: the entries under the denylisted keys and under __proto__ are
    dropped, the others are kept in their order, each with its value
    sanitized. *)
Theorem sanitizeSchema_filter_map (schema : object) :
  unique_keys schema = true ->
  sanitizeSchema schema =
  map (fun '(k, v) => (k, sanitize_value v))
    (filter (fun '(k, _) => negb (STRIP_KEYS_has k) && negb (k =? "__proto__")%string)
       schema).
Proof. apply sanitize_entries_unique. Qed.

Lemma sanitizeSchema_filter_map_witness :
  sanitizeSchema [("type", VStr "string"); ("minLength", VNum 3)]
  = [("type", VStr "string")].
Proof.
  rewrite (sanitizeSchema_filter_map
             [("type", VStr "string"); ("minLength", VNum 3)] eq_refl).
  reflexivity.
Defined.

Lemma adapt_throws {H : Host} (tool : Tool) (e : Err) :
  asSchema (inputSchema tool) = Thrown e -> adapt tool = Thrown e.
Proof. intros He. unfold adapt. now rewrite He. Qed.

Lemma assign_adapted_failure {H : Host} (before after : ToolSet)
  (name : string) (tool : Tool) (e : Err) :
  (forall n t, In (n, t) before ->
     exists raw, asSchema (inputSchema t) = Returned raw) ->
  asSchema (inputSchema tool) = Thrown e ->
  forall out,
    fold_left assign_adapted (before ++ (name, tool) :: after) (Returned out)
    = Thrown e.
Proof.
  intros Hbefore He. induction before as [|[n t] before IH]; intros out.
  - cbn [app fold_left assign_adapted bind]. rewrite (adapt_throws _ _ He).
    apply assign_adapted_thrown.
  - destruct (Hbefore n t (or_introl eq_refl)) as [raw Hraw].
    destruct (adapt_returns _ _ Hraw) as [t' Ht'].
    cbn [app fold_left assign_adapted bind]. rewrite Ht'. cbn [bind].
    apply IH. intros n0 t0 Hin. apply (Hbefore n0 t0). now right.
Qed.

(** X4.  When resolving the schema of a tool throws, and the schemas of
    the tools before it resolve, [sanitizeTools] throws the same value and
    returns no tool set. *)
Theorem sanitizeTools_propagates_failure {H : Host} (before after : ToolSet)
  (name : string) (tool : Tool) (e : Err) :
  (forall n t, In (n, t) before ->
     exists raw, asSchema (inputSchema t) = Returned raw) ->
  asSchema (inputSchema tool) = Thrown e ->
  sanitizeTools (before ++ (name, tool) :: after) = Thrown e.
Proof.
  intros Hbefore He. unfold sanitizeTools.
  now apply assign_adapted_failure.
Qed.

Lemma sanitizeTools_propagates_failure_witness :
  sanitizeTools (H := strict_host)
    ([("echo", strict_echo)] ++ ("static", strict_static) :: [("again", strict_echo)])
  = Thrown "no schema".
Proof.
  apply (sanitizeTools_propagates_failure (H := strict_host)).
  - intros n t [[= <- <-]|[]]. now eexists.
  - reflexivity.
Defined.

Lemma unique_keys_kept_entries (rhs : value -> value) (props : object) :
  unique_keys props = true -> unique_keys (kept_entries rhs props) = true.
Proof.
  induction props as [|[k x] l IH]; [reflexivity|].
  cbn [unique_keys]. destruct (assoc k l) eqn:Hk; [discriminate|]. intros Hu.
  unfold kept_entries. cbn [filter]. fold (kept_entries rhs l).
  destruct (kept k); [|now apply IH].
  cbn [map unique_keys]. fold (kept_entries rhs l).
  rewrite assoc_kept_entries, Hk.
  destruct (kept k); now apply IH.
Qed.

Lemma kept_entries_twice (rhs : value -> value) (props : object) :
  (forall k x, In (k, x) props -> rhs (rhs x) = rhs x) ->
  kept_entries rhs (kept_entries rhs props) = kept_entries rhs props.
Proof.
  unfold kept_entries.
  induction props as [|[k x] l IH]; intros Hall; [reflexivity|].
  cbn [filter]. destruct (kept k) eqn:Hk.
  - cbn [map filter]. rewrite Hk. cbn [map].
    rewrite (Hall k x (or_introl eq_refl)). f_equal.
    apply IH. intros k' x' Hin. apply (Hall k' x'). now right.
  - apply IH. intros k' x' Hin. apply (Hall k' x'). now right.
Qed.

Lemma sanitize_value_twice (v : value) :
  wf v = true -> sanitize_value (sanitize_value v) = sanitize_value v.
Proof.
  induction v as [| | | | |items IH|props IH] using value_induction;
    try reflexivity; intros Hwf.
  - cbn [sanitize_value]. f_equal. rewrite map_map. apply map_ext_in.
    intros item Hitem. rewrite Forall_forall in IH.
    cbn [wf] in Hwf. rewrite forallb_forall in Hwf.
    destruct item; try reflexivity.
    exact (IH _ Hitem (Hwf _ Hitem)).
  - cbn [wf] in Hwf. apply andb_true_iff in Hwf. destruct Hwf as [Hu Hwf].
    rewrite !sanitize_value_object. f_equal. unfold sanitizeSchema.
    rewrite (sanitize_entries_unique _ props Hu).
    rewrite sanitize_entries_unique by now apply unique_keys_kept_entries.
    apply kept_entries_twice. intros k x Hin.
    rewrite Forall_forall in IH. rewrite forallb_forall in Hwf.
    exact (IH _ Hin (Hwf _ Hin)).
Qed.

(** X5.  Sanitizing a well-formed tree a second time changes nothing. *)
Theorem sanitizeSchema_idempotent (schema : object) :
  wf (VObj schema) = true ->
  sanitizeSchema (sanitizeSchema schema) = sanitizeSchema schema.
Proof.
  intros Hwf. pose proof (sanitize_value_twice (VObj schema) Hwf) as Htwice.
  rewrite !sanitize_value_object in Htwice. now injection Htwice.
Qed.

Lemma sanitizeSchema_idempotent_witness :
  sanitizeSchema (sanitizeSchema proto_schema) = sanitizeSchema proto_schema.
Proof. apply sanitizeSchema_idempotent. reflexivity. Defined.

(** ** Invariants of the sanitizer *)

Lemma existsb_ext_in {A : Type} (f g : A -> bool) (l : list A) :
  (forall x, In x l -> f x = g x) -> existsb f l = existsb g l.
Proof.
  induction l as [|a l IH]; intros Hext; [reflexivity|]. simpl.
  rewrite (Hext a (or_introl eq_refl)). f_equal.
  apply IH. intros x Hx. apply Hext. now right.
Qed.

Lemma sanitize_value_wf (v : value) :
  wf v = true -> wf (sanitize_value v) = true.
Proof.
  induction v as [| | | | |items IH|props IH] using value_induction;
    try reflexivity; intros Hwf.
  - cbn [sanitize_value wf]. cbn [wf] in Hwf.
    rewrite forallb_forall in Hwf. apply forallb_forall.
    intros x Hx. apply in_map_iff in Hx. destruct Hx as (item & <- & Hitem).
    rewrite Forall_forall in IH.
    destruct item; try exact (Hwf _ Hitem).
    exact (IH _ Hitem (Hwf _ Hitem)).
  - cbn [wf] in Hwf. apply andb_true_iff in Hwf. destruct Hwf as [Hu Hwf].
    rewrite sanitize_value_object. cbn [wf]. apply andb_true_iff. split.
    + unfold sanitizeSchema. rewrite sanitize_entries_unique by exact Hu.
      now apply unique_keys_kept_entries.
    + apply forallb_forall. intros [k y] Hin.
      apply sanitize_entries_In in Hin. destruct Hin as (_ & x & Hx & ->).
      rewrite Forall_forall in IH. rewrite forallb_forall in Hwf.
      exact (IH _ Hx (Hwf _ Hx)).
Qed.

(** X6.  The sanitizer keeps trees well-formed: when every object of the
    input holds each key once, at every depth, so does every object of the
    output. *)
Theorem sanitizeSchema_keeps_wf (schema : object) :
  wf (VObj schema) = true -> wf (VObj (sanitizeSchema schema)) = true.
Proof.
  intros Hwf. rewrite <- sanitize_value_object. now apply sanitize_value_wf.
Qed.

Lemma sanitizeSchema_keeps_wf_witness :
  wf (VObj (sanitizeSchema proto_schema)) = true.
Proof. apply sanitizeSchema_keeps_wf. reflexivity. Defined.

Lemma flat_occurs_reaches (key : string) (v : value) :
  flat v = true -> occurs key v = reaches key v.
Proof.
  induction v as [| | | | |items IH|props IH] using value_induction;
    try reflexivity; intros Hflat; cbn [flat] in Hflat;
    rewrite forallb_forall in Hflat; cbn [occurs reaches];
    apply existsb_ext_in; rewrite Forall_forall in IH.
  - intros item Hitem. specialize (Hflat _ Hitem).
    apply andb_true_iff in Hflat. destruct Hflat as [Harr Hitemflat].
    destruct item; try reflexivity; [discriminate Harr|].
    exact (IH _ Hitem Hitemflat).
  - intros [k x] Hin. f_equal. exact (IH _ Hin (Hflat _ Hin)).
Qed.

Lemma sanitize_value_flat (v : value) :
  flat v = true -> flat (sanitize_value v) = true.
Proof.
  induction v as [| | | | |items IH|props IH] using value_induction;
    try reflexivity; intros Hflat; cbn [flat] in Hflat;
    rewrite forallb_forall in Hflat; rewrite Forall_forall in IH.
  - cbn [sanitize_value flat]. apply forallb_forall.
    intros x Hx. apply in_map_iff in Hx. destruct Hx as (item & <- & Hitem).
    pose proof (Hflat _ Hitem) as Hi. apply andb_true_iff in Hi.
    destruct Hi as [Harr Hitemflat].
    destruct item; try exact (Hflat _ Hitem).
    rewrite sanitize_value_object. cbn [Array_isArray negb andb].
    rewrite <- sanitize_value_object. exact (IH _ Hitem Hitemflat).
  - rewrite sanitize_value_object. cbn [flat]. apply forallb_forall.
    intros [k y] Hin. apply sanitize_entries_In in Hin.
    destruct Hin as (_ & x & Hx & ->). exact (IH _ Hx (Hflat _ Hx)).
Qed.

(** X7.  On a tree in which no sequence is a direct element of a
    sequence, the output of [sanitizeSchema] holds no denylisted key at any
    depth at all. *)
Theorem sanitizeSchema_flat_strips_everywhere (schema : object) (key : string) :
  flat (VObj schema) = true ->
  STRIP_KEYS_has key = true ->
  occurs key (VObj (sanitizeSchema schema)) = false.
Proof.
  intros Hflat Hkey. rewrite <- sanitize_value_object.
  rewrite flat_occurs_reaches by now apply sanitize_value_flat.
  now apply sanitize_value_clean.
Qed.

Lemma sanitizeSchema_flat_strips_everywhere_witness :
  occurs "format"
    (VObj (sanitizeSchema
             [("items", VArr [VObj [("format", VStr "uri"); ("type", VStr "string")]])]))
  = false.
Proof. apply sanitizeSchema_flat_strips_everywhere; reflexivity. Defined.

(** ** Round trips and composition of the flattener *)

Lemma block_texts_text_blocks (texts : list string) :
  block_texts (map text_block texts) = texts.
Proof.
  induction texts as [|text texts IH]; [reflexivity|].
  cbn [map block_texts flat_map]. fold (block_texts (map text_block texts)).
  rewrite IH. reflexivity.
Qed.

(** X8.  Text blocks built from a non-empty list of texts flatten back to
    the texts joined by line feeds, as a bare sequence and under the key
    content of a tree with any further keys after it; [extractTexts] gives
    back the list itself. *)
Theorem flattenContent_of_text_blocks (texts : list string) (more : object) :
  texts <> [] ->
  extractTexts (map text_block texts) = texts /\
  flattenContent (VArr (map text_block texts)) = VStr (join newline texts) /\
  flattenContent (VObj (("content", VArr (map text_block texts)) :: more))
  = VStr (join newline texts).
Proof.
  intros Hne. split; [|split].
  - now rewrite extractTexts_block_texts, block_texts_text_blocks.
  - rewrite flattenContent_cases. unfold collected.
    rewrite block_texts_text_blocks. now destruct texts.
  - rewrite flattenContent_cases. unfold collected. cbn [assoc].
    change ("content" =? "content")%string with true. cbv iota.
    rewrite block_texts_text_blocks. now destruct texts.
Qed.

Lemma flattenContent_of_text_blocks_witness :
  flattenContent (VObj [("content", VArr (map text_block ["one"; "two"]));
                        ("isError", VBool false)])
  = VStr (join newline ["one"; "two"]).
Proof.
  apply (flattenContent_of_text_blocks ["one"; "two"] [("isError", VBool false)]).
  discriminate.
Defined.

Lemma block_texts_length (parts : list value) :
  length (block_texts parts) <= length parts.
Proof.
  induction parts as [|part parts IH]; [apply le_n|].
  cbn [block_texts flat_map]. fold (block_texts parts).
  destruct (content_block_text part); cbn [app length]; lia.
Qed.

(** X9.  [extractTexts] works part by part: the texts of two sequences put
    end to end are the texts of the first followed by those of the second,
    and there are never more texts than parts. *)
Theorem extractTexts_app (parts more : list value) :
  extractTexts (parts ++ more) = extractTexts parts ++ extractTexts more /\
  length (extractTexts parts) <= length parts.
Proof.
  rewrite !extractTexts_block_texts. split.
  - unfold block_texts. apply flat_map_app.
  - apply block_texts_length.
Qed.

Lemma flattenContent_defined (result : value) :
  result <> VUndefined -> exists text, flattenContent result = VStr text.
Proof.
  intros Hdef. rewrite flattenContent_cases.
  destruct (JSON_stringify_defined result Hdef) as [text Htext].
  unfold encoding. rewrite Htext.
  destruct result; try (now eexists); destruct (collected _); now eexists.
Qed.

Lemma flattenContent_twice (result : value) :
  flattenContent (flattenContent result) = flattenContent result.
Proof.
  destruct result as [| | | | | |] eqn:Hres;
    try reflexivity;
    match goal with
    | |- context [flattenContent ?v] =>
        destruct (flattenContent_defined v ltac:(discriminate)) as [text ->]
    end; reflexivity.
Qed.

(** X10.  Flattening a flattened result changes nothing: a string comes
    back as it is, and [undefined] stays [undefined]. *)
Theorem flattenContent_idempotent (result : value) :
  flattenContent (flattenContent result) = flattenContent result.
Proof. apply flattenContent_twice. Qed.

(** ** The wrapper *)

Lemma wrapped_twice {H : Host} (original : Args -> outcome Err value) args :
  wrapped (wrapped original) args = wrapped original args.
Proof.
  unfold wrapped, bind. destruct (original args); [|reflexivity].
  now rewrite flattenContent_twice.
Qed.

(** X11.  Wrapping a wrapped tool gives a tool with the same input
    schema, hook and remaining fields, and an execution function that ends
    alike on every argument list. *)
Theorem wrapExecute_twice {H : Host} (tool : Tool) :
  inputSchema (wrapExecute (wrapExecute tool)) = inputSchema (wrapExecute tool) /\
  toModelOutput (wrapExecute (wrapExecute tool)) = toModelOutput (wrapExecute tool) /\
  other (wrapExecute (wrapExecute tool)) = other (wrapExecute tool) /\
  same_execute (execute (wrapExecute (wrapExecute tool)))
               (execute (wrapExecute tool)).
Proof.
  unfold wrapExecute. destruct (execute tool) as [original|] eqn:Hexec;
    cbn [execute inputSchema toModelOutput other]; rewrite ?Hexec;
    repeat split.
  cbn [same_execute]. intros args. apply wrapped_twice.
Qed.

(** ** The adapter as a whole *)

Lemma adapt_resolved {H : Host} (tool tool' : Tool) :
  adapt tool = Returned tool' ->
  exists raw, asSchema (inputSchema tool) = Returned raw.
Proof.
  intros Hadapt. destruct (adapt_fields _ _ Hadapt) as (raw & Hraw & _).
  now exists raw.
Qed.

Lemma assign_adapted_returns {H : Host} (l : ToolSet) :
  (forall n t, In (n, t) l ->
     exists raw, asSchema (inputSchema t) = Returned raw) ->
  forall out, exists out',
    fold_left assign_adapted l (Returned out) = Returned out'.
Proof.
  induction l as [|[n t] l IH]; intros Hall out; [now exists out|].
  destruct (Hall n t (or_introl eq_refl)) as [raw Hraw].
  destruct (adapt_returns _ _ Hraw) as [t' Ht'].
  cbn [fold_left assign_adapted bind]. rewrite Ht'. cbn [bind].
  apply IH. intros n0 t0 Hin. apply (Hall n0 t0). now right.
Qed.

Lemma assign_adapted_resolved {H : Host} (l : ToolSet) :
  forall out out',
    fold_left assign_adapted l (Returned out) = Returned out' ->
    forall n t, In (n, t) l ->
      exists raw, asSchema (inputSchema t) = Returned raw.
Proof.
  induction l as [|[n0 t0] l IH]; intros out out' Hfold n t Hin;
    [destruct Hin|].
  cbn [fold_left assign_adapted bind] in Hfold.
  destruct (adapt t0) as [t0'|e] eqn:Ht0; cbn [bind] in Hfold.
  - destruct Hin as [[= <- <-]|Hin].
    + exact (adapt_resolved _ _ Ht0).
    + exact (IH _ _ Hfold n t Hin).
  - exfalso.
    generalize (eq_trans (eq_sym Hfold) (assign_adapted_thrown l e)).
    discriminate.
Qed.

(** X12.  [sanitizeTools] returns a tool set exactly when the schema of
    every tool of the input resolves; otherwise it throws, and no part of
    the output is handed back. *)
Theorem sanitizeTools_returns_iff {H : Host} (tools : ToolSet) :
  (exists out, sanitizeTools tools = Returned out) <->
  (forall name tool, In (name, tool) tools ->
     exists raw, asSchema (inputSchema tool) = Returned raw).
Proof.
  unfold sanitizeTools. split.
  - intros [out Hout]. exact (assign_adapted_resolved _ _ _ Hout).
  - intros Hall. now apply assign_adapted_returns.
Qed.

Lemma adapt_all_names {H : Host} (l adapted : ToolSet) :
  adapt_all l = Returned adapted -> map fst adapted = map fst l.
Proof.
  revert adapted. induction l as [|[n t] l IH]; intros adapted.
  - now intros [= <-].
  - cbn [adapt_all bind]. destruct (adapt t) as [t'|e]; [|discriminate].
    cbn [bind]. destruct (adapt_all l) as [rest|e]; [|discriminate].
    intros [= <-]. cbn [map fst]. f_equal. now apply IH.
Qed.

Lemma filter_storable_names {A : Type} (l : list (string * A)) :
  map fst (filter storable l) = filter storable_name (map fst l).
Proof.
  induction l as [|[n x] l IH]; [reflexivity|].
  cbn [filter map fst]. unfold storable at 1, storable_name at 1. cbn [fst].
  destruct (negb (n =? "__proto__")%string); cbn [map fst]; now rewrite IH.
Qed.

(** X13.  On a tool set that holds each name once, the names of the
    output of [sanitizeTools] are the names of the input in the same order,
    the name __proto__ left out. *)
Theorem sanitizeTools_names {H : Host} (tools out : ToolSet) :
  unique_keys tools = true ->
  sanitizeTools tools = Returned out ->
  map fst out = filter storable_name (map fst tools).
Proof.
  intros Hu. rewrite sanitizeTools_unique by exact Hu.
  destruct (adapt_all tools) as [adapted|e] eqn:Hall; [|discriminate].
  intros [= <-]. rewrite filter_storable_names.
  now rewrite (adapt_all_names _ _ Hall).
Qed.

Lemma sanitizeTools_names_witness :
  map fst demo_adapted = ["echo"; "static"].
Proof.
  exact (sanitizeTools_names (H := plain_host) demo_tools demo_adapted
           eq_refl eq_refl).
Defined.

(** X14.  Adapting an adapted tool changes nothing more, when the host
    resolves a descriptor built by [jsonSchema] to the schema it was built
    from and the canonical schema of the tool is a well-formed tree or is
    skipped by the guard: the second pass returns a tool with the same
    input schema, hook and remaining fields, and an execution function that
    ends alike on every argument list. *)
Theorem adapt_twice {H : Host} (tool once : Tool) (raw : value) :
  (forall v, asSchema (jsonSchema v) = Returned v) ->
  asSchema (inputSchema tool) = Returned raw ->
  skips_sanitation raw = true \/ (is_plain_object raw = true /\ wf raw = true) ->
  adapt tool = Returned once ->
  exists twice,
    adapt once = Returned twice /\
    inputSchema twice = inputSchema once /\
    toModelOutput twice = toModelOutput once /\
    other twice = other once /\
    same_execute (execute twice) (execute once).
Proof.
  intros Hround Hraw Hshape Hadapt.
  destruct (adapt_fields _ _ Hadapt)
    as (raw0 & Hraw0 & Hother & Hex & Hhook & Hschema).
  rewrite Hraw in Hraw0. injection Hraw0 as <-.
  assert (Hagain : exists raw1,
             asSchema (inputSchema once) = Returned raw1 /\
             (if skips_sanitation raw1 then inputSchema once
              else jsonSchema (VObj (sanitizeSchema (Object_entries raw1))))
             = inputSchema once).
  { destruct Hshape as [Hskip | [Htree Hwf]].
    - rewrite Hskip in Hschema. exists raw. rewrite Hschema, Hskip. auto.
    - apply is_plain_object_spec in Htree. destruct Htree as [tree ->].
      change (inputSchema once = jsonSchema (VObj (sanitizeSchema tree)))
        in Hschema.
      exists (VObj (sanitizeSchema tree)).
      split; [rewrite Hschema; apply Hround|].
      change (jsonSchema (VObj (sanitizeSchema (sanitizeSchema tree)))
              = inputSchema once).
      pose proof (sanitize_value_twice (VObj tree) Hwf) as Htwice.
      rewrite !sanitize_value_object in Htwice. injection Htwice as Htwice.
      rewrite Htwice. now symmetry. }
  destruct Hagain as (raw1 & Hraw1 & Hsame).
  destruct (adapt_returns _ _ Hraw1) as [twice Htwice]. exists twice.
  destruct (adapt_fields _ _ Htwice)
    as (raw2 & Hraw2 & Hother2 & Hex2 & Hhook2 & Hschema2).
  rewrite Hraw1 in Hraw2. injection Hraw2 as <-.
  split; [exact Htwice|]. split; [now rewrite Hschema2|]. split; [|split].
  - rewrite Hhook2, Hex, Hhook. now destruct (execute tool).
  - exact Hother2.
  - rewrite Hex2, Hex. destruct (execute tool); cbn; [|exact I].
    intros args. apply wrapped_twice.
Qed.

Lemma adapt_twice_witness :
  exists twice,
    adapt echo_adapted = Returned twice /\
    inputSchema twice = inputSchema echo_adapted /\
    toModelOutput twice = toModelOutput echo_adapted /\
    other twice = other echo_adapted /\
    same_execute (execute twice) (execute echo_adapted).
Proof.
  apply (adapt_twice (H := plain_host) echo_tool echo_adapted string_schema).
  - reflexivity.
  - reflexivity.
  - right. split; reflexivity.
  - reflexivity.
Defined.
